(** * Sales analysis (CRISP-DM): ABC classification and RFM segmentation

    A shallow embedding of [sales_analysis.py].  The script is a single
    batch pipeline over one pandas data frame:

    - data preparation (typed columns, calendar fields),
    - business KPIs and the monthly revenue series,
    - the product table with revenue share, cumulative share and ABC class,
    - the customer table with recency / frequency / monetary metrics, their
      1..5 scores and the segment label, written to [rfm_analysis.csv].

    Conventions of the embedding.

    - A data frame is the list of its rows, in row order; a column is the
      list of the values of one field.
    - float64 arithmetic is carried out exactly, on rationals ([Q]), and is
      extended with the IEEE special values that pandas produces instead of
      raising: [PInf], [NInf] and [NaN].  Rounding is not modelled.
    - Python exceptions are values of [exn]; code that can raise lives in
      the [result] monad.
    - The pandas operations the script calls ([groupby], [sort_values],
      [cumsum], [rank], [qcut], [cut], [fillna]) are modelled in module
      [Pandas] after the behaviour of the library. *)

From Stdlib Require Import String Ascii.
From Stdlib Require Import List ZArith QArith Qabs Qround Bool Lia Lqa.
From Stdlib Require Import Permutation Sorted.
Import ListNotations.

Local Open Scope Q_scope.

(* ------------------------------------------------------------------ *)
(** * Python exceptions *)

Module Py.

Inductive exn : Type :=
| ValueError
| TypeError
| ZeroDivisionError.

Inductive result (A : Type) : Type :=
| Ok (a : A)
| Raise (e : exn).

Arguments Ok {A} a.
Arguments Raise {A} e.

Definition bind {A B : Type} (c : result A) (k : A -> result B) : result B :=
  match c with
  | Ok a => k a
  | Raise e => Raise e
  end.

(** [try: body except ValueError: handler] *)
Definition try_except_ValueError {A : Type}
    (body : result A) (handler : result A) : result A :=
  match body with
  | Ok a => Ok a
  | Raise ValueError => handler
  | Raise e => Raise e
  end.

End Py.

Import Py.

Notation "x <- c ;; k" := (bind c (fun x => k))
  (at level 61, c at next level, right associativity).

(* ------------------------------------------------------------------ *)
(** * float64 values, in exact arithmetic *)

Module Float.

Inductive float64 : Type :=
| Finite (q : Q)
| PInf
| NInf
| NaN.

Definition Qlt_bool (a b : Q) : bool := negb (Qle_bool b a).

(** Sign of an infinity times the sign of a finite factor; a zero factor
    gives NaN. *)
Definition scale_inf (pos : bool) (y : Q) : float64 :=
  if Qeq_bool y 0 then NaN
  else if Bool.eqb pos (Qlt_bool 0 y) then PInf else NInf.

Definition fadd (a b : float64) : float64 :=
  match a, b with
  | NaN, _ | _, NaN => NaN
  | Finite x, Finite y => Finite (x + y)
  | PInf, NInf | NInf, PInf => NaN
  | PInf, _ | _, PInf => PInf
  | NInf, _ | _, NInf => NInf
  end.

Definition fmul (a b : float64) : float64 :=
  match a, b with
  | NaN, _ | _, NaN => NaN
  | Finite x, Finite y => Finite (x * y)
  | PInf, Finite y | Finite y, PInf => scale_inf true y
  | NInf, Finite y | Finite y, NInf => scale_inf false y
  | PInf, PInf | NInf, NInf => PInf
  | PInf, NInf | NInf, PInf => NInf
  end.

(** True division as pandas performs it on a numeric column: a zero
    divisor raises nothing, it gives [inf], [-inf] or [NaN]. *)
Definition fdiv (a b : float64) : float64 :=
  match a, b with
  | NaN, _ | _, NaN => NaN
  | Finite x, Finite y =>
      if Qeq_bool y 0 then
        if Qlt_bool 0 x then PInf
        else if Qlt_bool x 0 then NInf
        else NaN
      else Finite (x / y)
  | Finite _, (PInf | NInf) => Finite 0
  | PInf, Finite y => if Qle_bool 0 y then PInf else NInf
  | NInf, Finite y => if Qle_bool 0 y then NInf else PInf
  | (PInf | NInf), (PInf | NInf) => NaN
  end.

(** [a <= b]; every comparison with NaN is false. *)
Definition fle (a b : float64) : bool :=
  match a, b with
  | NaN, _ | _, NaN => false
  | NInf, _ => true
  | _, PInf => true
  | Finite x, Finite y => Qle_bool x y
  | PInf, _ => false
  | _, NInf => false
  end.


End Float.

Import Float.

(* ------------------------------------------------------------------ *)
(** * The pandas operations used by the script *)

Module Pandas.

Section Frames.
Context {A : Type}.

(** [before x y] holds when [x] may stay in front of [y].  Insertion in
    front of the first element that [x] may precede keeps rows with
    equal keys in their original order. *)
Fixpoint insert (before : A -> A -> bool) (x : A) (l : list A) : list A :=
  match l with
  | [] => [x]
  | y :: r => if before x y then x :: y :: r else y :: insert before x r
  end.

(** [DataFrame.sort_values] / the key ordering of [groupby].  Rows with
    equal keys keep their frame order here; the sort pandas runs by default
    may order them otherwise, and nothing below depends on that order. *)
Fixpoint sort_values (before : A -> A -> bool) (l : list A) : list A :=
  match l with
  | [] => []
  | x :: r => insert before x (sort_values before r)
  end.

(** [unique]: the distinct values, in order of first appearance. *)
Fixpoint unique (eqb : A -> A -> bool) (l : list A) : list A :=
  match l with
  | [] => []
  | x :: r => x :: filter (fun y => negb (eqb x y)) (unique eqb r)
  end.


End Frames.

(** [df.groupby(key)]: one group per distinct key, groups in increasing
    key order, each group holding its rows in frame order. *)
Definition groupby {A K : Type} (eqb leb : K -> K -> bool) (key : A -> K)
    (df : list A) : list (K * list A) :=
  map (fun k => (k, filter (fun r => eqb (key r) k) df))
      (sort_values leb (unique eqb (map key df))).

(** [Series.sum] of a column without missing values. *)
Definition Qsum (l : list Q) : Q := fold_right Qplus 0 l.

(** [Series.cumsum] (skipna): a NaN entry stays NaN in the output and is
    left out of the running total. *)
Fixpoint cumsum_from (acc : float64) (l : list float64) : list float64 :=
  match l with
  | [] => []
  | NaN :: r => NaN :: cumsum_from acc r
  | x :: r => let acc' := fadd acc x in acc' :: cumsum_from acc' r
  end.

Definition cumsum (l : list float64) : list float64 :=
  cumsum_from (Finite 0) l.

(** [Series.rank(method="first")]: one plus the number of strictly smaller
    values, plus the number of equal values that appear earlier. *)
Fixpoint rank_first_from (earlier all l : list Q) : list Q :=
  match l with
  | [] => []
  | v :: r =>
      inject_Z (Z.of_nat (1 + length (filter (fun w => Qlt_bool w v) all)
                            + length (filter (Qeq_bool v) earlier)))
      :: rank_first_from (v :: earlier) all r
  end.

Definition rank_first (l : list Q) : list Q := rank_first_from [] l l.

(** [fillna(v)] on one cell; the frame method applies it to every cell. *)
Definition fillna {A : Type} (v : A) (cell : option A) : A :=
  match cell with
  | Some a => a
  | None => v
  end.

(** [dropna] *)
Fixpoint dropna {A : Type} (l : list (option A)) : list A :=
  match l with
  | [] => []
  | Some a :: r => a :: dropna r
  | None :: r => dropna r
  end.

(** [numpy.linspace(start, stop, num)], end point included. *)
Definition linspace (start stop : Q) (num : nat) : list Q :=
  let step := (stop - start) / inject_Z (Z.of_nat (num - 1)) in
  map (fun i => start + inject_Z (Z.of_nat i) * step) (seq 0 num).

(** [Series.quantile(q)] with linear interpolation, on the sorted values. *)
Definition quantile (vals : list Q) (q : Q) : Q :=
  let v := sort_values Qle_bool vals in
  let h := q * inject_Z (Z.of_nat (length v - 1)) in
  let lo := Z.to_nat (Qfloor h) in
  let hi := Nat.min (lo + 1) (length v - 1) in
  nth lo v 0 + (h - inject_Z (Z.of_nat lo)) * (nth hi v 0 - nth lo v 0).

(** [bins.searchsorted(v, side="left")]: index of the first edge that is
    not below [v]. *)
Fixpoint searchsorted_left (bins : list Q) (v : Q) : nat :=
  match bins with
  | [] => 0
  | b :: r => if Qlt_bool b v then S (searchsorted_left r v) else 0
  end.

Inductive duplicates : Type := dup_raise | dup_drop.

(** [take_nd(labels, i)]: index -1 reads as missing. *)
Definition take_nd (labels : list Z) (i : Z) : option Z :=
  if (i =? -1)%Z then None else nth_error labels (Z.to_nat i).

(** [_bins_to_cuts] with [right=True], [ordered=True] and a list of
    labels.  [None] in the input and in the output is NaN. *)
Definition bins_to_cuts (x : list (option Q)) (bins : list Q)
    (labels : list Z) (include_lowest : bool) (dups : duplicates)
    : result (list (option Z)) :=
  let unique_bins := unique Qeq_bool bins in
  let shrunk := (length unique_bins <? length bins)%nat
                && negb (length bins =? 2)%nat in
  if shrunk && match dups with dup_raise => true | dup_drop => false end
  then Raise ValueError                 (* Bin edges must be unique *)
  else
    let bins := if shrunk then unique_bins else bins in
    let id_of (v : option Q) : Z :=
      match v with
      | None => 0%Z                                      (* isna(x) *)
      | Some q =>
          let i := if include_lowest && Qeq_bool q (hd 0 bins)
                   then 1%nat else searchsorted_left bins q in
          if (i =? length bins)%nat then 0%Z else Z.of_nat i
      end in
    let ids := map id_of x in
    if negb (length (unique Z.eqb labels) =? length labels)%nat
    then Raise ValueError               (* labels must be unique *)
    else if negb (length labels =? length bins - 1)%nat
    then Raise ValueError  (* labels must be one fewer than the edges *)
    else Ok (map (fun id => take_nd labels (id - 1)%Z) ids).

(** [pd.qcut(x, q, labels=labels, duplicates=dups)].  The edges are the
    quantiles 0, 1/q, ..., 1 of the values that are present.  With no
    value present every edge is NaN and the edges collapse to one. *)
Definition qcut (x : list (option Q)) (q : nat) (labels : list Z)
    (dups : duplicates) : result (list (option Z)) :=
  let quantiles := linspace 0 1 (q + 1) in
  match dropna x with
  | [] =>
      match dups with
      | dup_raise => Raise ValueError
      | dup_drop =>
          if negb (length (unique Z.eqb labels) =? length labels)%nat
          then Raise ValueError
          else if negb (length labels =? 0)%nat then Raise ValueError
          else Ok (map (fun _ => None) x)
      end
  | vals => bins_to_cuts x (map (quantile vals) quantiles) labels true dups
  end.

Definition Qmin' (a b : Q) : Q := if Qle_bool a b then a else b.
Definition Qmax' (a b : Q) : Q := if Qle_bool a b then b else a.

(** [_nbins_to_bins] with [right=True]: [nbins] equal-width bins over the
    range of the values present.  A constant series has its range widened
    by 0.1% of its value on both sides; otherwise the first edge is
    lowered by 0.1% of the range so that the minimum falls in a bin. *)
Definition nbins_to_bins (x : list (option Q)) (nbins : nat)
    : result (list Q) :=
  if (nbins <? 1)%nat then Raise ValueError
  else
    match dropna x with
    | [] => Raise ValueError        (* empty, or no finite range *)
    | v :: r =>
        let mn := fold_left Qmin' r v in
        let mx := fold_left Qmax' r v in
        if Qeq_bool mn mx then
          let mn' := mn - (if negb (Qeq_bool mn 0)
                           then (1 # 1000) * Qabs mn else 1 # 1000) in
          let mx' := mx + (if negb (Qeq_bool mx 0)
                           then (1 # 1000) * Qabs mx else 1 # 1000) in
          Ok (linspace mn' mx' (nbins + 1))
        else
          let bins := linspace mn mx (nbins + 1) in
          let adj := (mx - mn) * (1 # 1000) in
          Ok (match bins with
              | [] => []
              | b0 :: bs => (b0 - adj) :: bs
              end)
    end.

(** [pd.cut(x, nbins, labels=labels)] *)
Definition cut (x : list (option Q)) (nbins : nat) (labels : list Z)
    : result (list (option Z)) :=
  bins <- nbins_to_bins x nbins ;;
  bins_to_cuts x bins labels false dup_raise.

End Pandas.

Import Pandas.

(* ------------------------------------------------------------------ *)
(** * Timestamps and calendar fields *)

Module Calendar.

Local Open Scope Z_scope.

(** A [Timestamp] is a number of nanoseconds since 1970-01-01T00:00, a
    [Timedelta] a number of nanoseconds. *)
Definition ns_per_day : Z := 86400000000000.

Definition Timedelta_days (n : Z) : Z := n * ns_per_day.

(** [Timedelta.days]: whole days, rounded down. *)
Definition days (delta : Z) : Z := delta / ns_per_day.

(** Proleptic Gregorian date (year, month, day) of a day number. *)
Definition civil_from_days (z : Z) : Z * Z * Z :=
  let z := z + 719468 in
  let era := z / 146097 in
  let doe := z - era * 146097 in
  let yoe := (doe - doe / 1460 + doe / 36524 - doe / 146096) / 365 in
  let doy := doe - (365 * yoe + yoe / 4 - yoe / 100) in
  let mp := (5 * doy + 2) / 153 in
  let d := doy - (153 * mp + 2) / 5 + 1 in
  let m := if mp <? 10 then mp + 3 else mp - 9 in
  let y := yoe + era * 400 in
  (if m <=? 2 then y + 1 else y, m, d).

(** [dt.to_period("M")]: the ordinal of the calendar month. *)
Definition to_period_M (ts : Z) : Z :=
  let '(y, m, _) := civil_from_days (ts / ns_per_day) in
  (y - 1970) * 12 + (m - 1).

Definition month_names : list string :=
  ["January"; "February"; "March"; "April"; "May"; "June"; "July";
   "August"; "September"; "October"; "November"; "December"]%string.

Definition day_names : list string :=
  ["Monday"; "Tuesday"; "Wednesday"; "Thursday"; "Friday"; "Saturday";
   "Sunday"]%string.

(** [dt.month_name()] *)
Definition month_name (ts : Z) : string :=
  let '(_, m, _) := civil_from_days (ts / ns_per_day) in
  nth (Z.to_nat (m - 1)) month_names EmptyString.

(** [dt.day_name()]; day 0 was a Thursday. *)
Definition day_name (ts : Z) : string :=
  nth (Z.to_nat ((ts / ns_per_day + 3) mod 7)) day_names EmptyString.

End Calendar.

Import Calendar.

(* ------------------------------------------------------------------ *)
(** * The script *)

Module Sales.

Local Open Scope string_scope.

(** ** Data preparation *)

(** One row of [df] after the columns are renamed and [Sale_Date] is
    converted by [pd.to_datetime]. *)
Record sale : Type := mk_sale {
  Sale_Date : Z;
  Sale : string;
  Sale_ID : Z;
  Customer : string;
  Product : string;
  Amount : Q;
  Price : Q;
  Total_Sale : Q;
  Pay : string;
  Image : string;
  Month : string;
  Year : Z;
  Sale_Type : string
}.

Definition dataframe : Type := list sale.

Definition Month_Name (r : sale) : string := month_name (Sale_Date r).
Definition Weekday (r : sale) : string := day_name (Sale_Date r).

(** ** Business KPIs *)

Definition total_sales (df : dataframe) : Q := Qsum (map Total_Sale df).




(** ** Monthly sales *)

Definition monthly_sales (df : dataframe) : list (Z * Q) :=
  map (fun g => (fst g, Qsum (map Total_Sale (snd g))))
      (groupby Z.eqb Z.leb (fun r => to_period_M (Sale_Date r)) df).

(** ** Product analysis (ABC) *)

Record product_agg : Type := mk_product_agg {
  agg_Product : string;
  Num_Sales : Z;
  Units_Sold : Q;
  Revenue : Q
}.

(** [groupby("Product").agg(...).sort_values("Revenue", ascending=False)] *)
Definition products_agg (df : dataframe) : list product_agg :=
  sort_values (fun a b => Qle_bool (Revenue b) (Revenue a))
    (map (fun g => {| agg_Product := fst g;
                      Num_Sales := Z.of_nat (length (snd g));
                      Units_Sold := Qsum (map Amount (snd g));
                      Revenue := Qsum (map Total_Sale (snd g)) |})
         (groupby String.eqb String.leb Product df)).

(** [products["Revenue"] / products["Revenue"].sum() * 100] *)
Definition Revenue_Pct_col (t : list product_agg) : list float64 :=
  let total := Qsum (map Revenue t) in
  map (fun p => fmul (fdiv (Finite (Revenue p)) (Finite total))
                     (Finite 100)) t.

Definition Cum_Pct_col (t : list product_agg) : list float64 :=
  cumsum (Revenue_Pct_col t).

(** [lambda x: "A" if x <= 80 else "B" if x <= 95 else "C"] *)
Definition abc_category (x : float64) : string :=
  if fle x (Finite 80) then "A"
  else if fle x (Finite 95) then "B"
  else "C".

Record product_row : Type := mk_product_row {
  row_agg :> product_agg;
  Revenue_Pct : float64;
  Cum_Pct : float64;
  ABC_Category : string
}.

Definition products (df : dataframe) : list product_row :=
  let t := products_agg df in
  map (fun '(p, pct, cum) => mk_product_row p pct cum (abc_category cum))
      (combine (combine t (Revenue_Pct_col t)) (Cum_Pct_col t)).

(** ** RFM analysis *)

(** [Series.max] of a datetime column; [None] is NaT. *)
Definition ts_max (l : list Z) : option Z :=
  match l with
  | [] => None
  | x :: r => Some (fold_left Z.max r x)
  end.

Definition reference_date (df : dataframe) : option Z :=
  option_map (fun m => (m + Timedelta_days 1)%Z) (ts_max (map Sale_Date df)).

Record rfm_agg_row : Type := mk_rfm_agg_row {
  agg_Customer : string;
  agg_Recency : option Z;        (* [None] is NaN *)
  agg_Frequency : Z;
  agg_Monetary : Q
}.

(** [lambda x: (reference_date - x.max()).days] *)
Definition recency_of (reference_date : option Z) (x : list Z) : option Z :=
  match reference_date, ts_max x with
  | Some ref, Some m => Some (days (ref - m))
  | _, _ => None
  end.

(** [df.groupby("Customer").agg(...).reset_index()] *)
Definition rfm_agg (df : dataframe) : list rfm_agg_row :=
  map (fun g => {| agg_Customer := fst g;
                   agg_Recency :=
                     recency_of (reference_date df) (map Sale_Date (snd g));
                   agg_Frequency := Z.of_nat (length (snd g));
                   agg_Monetary := Qsum (map Total_Sale (snd g)) |})
      (groupby String.eqb String.leb Customer df).

Definition score_labels (ascending : bool) : list Z :=
  (if ascending then [5; 4; 3; 2; 1] else [1; 2; 3; 4; 5])%Z.

Definition rfm_score (series : list (option Q)) (ascending : bool)
    : result (list (option Z)) :=
  try_except_ValueError
    (qcut series 5 (score_labels ascending) dup_drop)
    (cut series 5 (score_labels ascending)).

(** [row["R"], row["F"], row["M"]] are passed as [r], [f], [m]. *)
Definition segment_customer (r f m : Z) : string :=
  if ((r >=? 4) && (f >=? 4) && (m >=? 4))%Z then "Champions"
  else if ((f >=? 4) && (m >=? 4))%Z then "Loyal"
  else if ((r >=? 4) && (f <=? 2))%Z then "Potential"
  else if ((r <=? 2) && (f >=? 3))%Z then "At Risk"
  else if ((r <=? 2) && (f <=? 2))%Z then "Lost"
  else "Occasional".

Record rfm_row : Type := mk_rfm_row {
  rfm_Customer : string;
  Recency : Z;
  Frequency : Z;
  Monetary : Q;
  R : Z;
  F : Z;
  M : Z;
  Segment : string
}.

(** The frame after the three score columns are added; a score that
    [rfm_score] left unassigned is NaN ([None]). *)
Record rfm_scored_row : Type := mk_rfm_scored_row {
  metrics :> rfm_agg_row;
  R_score : option Z;
  F_score : option Z;
  M_score : option Z
}.

Definition rfm_scored (df : dataframe) : result (list rfm_scored_row) :=
  let t := rfm_agg df in
  r <- rfm_score (map (fun a => option_map inject_Z (agg_Recency a)) t)
                 true ;;
  f <- rfm_score
         (map Some (rank_first (map (fun a => inject_Z (agg_Frequency a)) t)))
         false ;;
  m <- rfm_score (map Some (rank_first (map agg_Monetary t))) false ;;
  Ok (map (fun '(a, r, f, m) => mk_rfm_scored_row a r f m)
          (combine (combine (combine t r) f) m)).

(** [rfm.fillna(3)] and the [Segment] column, on one row.  [fillna] acts
    on every column that can hold NaN: [Recency], [R], [F], [M]. *)
Definition fill_and_segment (s : rfm_scored_row) : rfm_row :=
  let r := fillna 3%Z (R_score s) in
  let f := fillna 3%Z (F_score s) in
  let m := fillna 3%Z (M_score s) in
  mk_rfm_row (agg_Customer s) (fillna 3%Z (agg_Recency s))
             (agg_Frequency s) (agg_Monetary s) r f m
             (segment_customer r f m).

Definition rfm (df : dataframe) : result (list rfm_row) :=
  t <- rfm_scored df ;;
  Ok (sort_values (fun a b => Qle_bool (Monetary b) (Monetary a))
                  (map fill_and_segment t)).

(** ** Outputs *)







End Sales.

Import Sales.

(* ------------------------------------------------------------------ *)
(** * The segmentation rule as a priority list *)

Module Rules.

Local Open Scope string_scope.
Local Open Scope Z_scope.

(** A rule is a condition on the triple (R, F, M) and the label it gives. *)
Definition rule : Type := (Z -> Z -> Z -> bool) * string.

Definition segment_rules : list rule :=
  [ (fun r f m => (4 <=? r) && (4 <=? f) && (4 <=? m), "Champions");
    (fun _ f m => (4 <=? f) && (4 <=? m),              "Loyal");
    (fun r f _ => (4 <=? r) && (f <=? 2),              "Potential");
    (fun r f _ => (r <=? 2) && (3 <=? f),              "At Risk");
    (fun r f _ => (r <=? 2) && (f <=? 2),              "Lost") ].

(** The rules are tried in order; the first one whose condition holds
    decides. *)
Fixpoint first_match (rules : list rule) (otherwise : string)
    (r f m : Z) : string :=
  match rules with
  | [] => otherwise
  | (cond, label) :: rest =>
      if cond r f m then label else first_match rest otherwise r f m
  end.

Definition segment_by_rules : Z -> Z -> Z -> string :=
  first_match segment_rules "Occasional".

End Rules.

Import Rules.

(* ------------------------------------------------------------------ *)
(** * Sample frames *)

Module Samples.

Local Open Scope string_scope.

(** A sale on day [day] (days since 1970-01-01) of one unit at price
    [total]. *)
Definition sample_sale (day id : Z) (customer product : string) (total : Q)
    : sale :=
  mk_sale (day * ns_per_day)%Z "Yes" id customer product 1 total total
          "Cash" "" "January" 2024 "Retail".

(** Three customers, three products, positive revenue. *)
Definition df_shop : dataframe :=
  [ sample_sale 19724 1 "Ana" "Soap" 60;
    sample_sale 19730 2 "Luis" "Bleach" 25;
    sample_sale 19741 3 "Ana" "Softener" 10;
    sample_sale 19760 4 "Marta" "Soap" 5 ].

(** Two products, every sale worth nothing. *)
Definition df_free : dataframe :=
  [ sample_sale 19724 1 "Ana" "Soap" 0;
    sample_sale 19730 2 "Luis" "Bleach" 0 ].

(** A sale and a refund that is smaller than the sale. *)
Definition df_refund : dataframe :=
  [ sample_sale 19724 1 "Ana" "Soap" 10;
    sample_sale 19730 2 "Luis" "Bleach" (-5) ].

(** One product only. *)
Definition df_single : dataframe :=
  [ sample_sale 19724 1 "Ana" "Soap" 40;
    sample_sale 19730 2 "Luis" "Soap" 60 ].

(** Recency values with many ties, and without ties. *)
Definition recency_tied : list (option Q) :=
  [Some 1; Some 1; Some 1; Some 1; Some 5].

Definition recency_spread : list (option Q) :=
  [Some 3; Some 10; Some 1; Some 7; Some 20; Some 15].

(** One product takes nine tenths of the revenue. *)
Definition df_dominant : dataframe :=
  [ sample_sale 19724 1 "Ana" "Soap" 90;
    sample_sale 19730 2 "Luis" "Bleach" 10 ].

End Samples.

Import Samples.

(* ------------------------------------------------------------------ *)
(** * Vocabulary of the statements *)

Module Vocabulary.

(** The sum of [f] over the rows of the group of key [k]. *)
Definition group_sum {A K : Type} (eqb : K -> K -> bool) (key : A -> K)
    (f : A -> Q) (df : list A) (k : K) : Q :=
  Qsum (map f (filter (fun r => eqb (key r) k) df)).

(** Running totals of a column of rationals. *)
Fixpoint running_from (acc : Q) (l : list Q) : list Q :=
  match l with
  | [] => []
  | x :: r => (acc + x) :: running_from (acc + x) r
  end.

(** A column of floats read in row order never decreases. *)
Definition non_decreasing (l : list float64) : Prop :=
  StronglySorted (fun a b => fle a b = true) l.

(** A score of the 1..5 scale. *)
Definition is_score (z : Z) : Prop := (1 <= z <= 5)%Z.

End Vocabulary.

Import Vocabulary.

(* ------------------------------------------------------------------ *)
(** * The tables behind the charts *)

Module Charts.

(** [DataFrame.head(n)] *)
Definition head {A : Type} (n : nat) (l : list A) : list A := firstn n l.

(** [top_customers = rfm.head(10)], taken from the sorted customer table. *)
Definition top_customers (rfm_table : list rfm_row) : list rfm_row :=
  head 10 rfm_table.

(** [top_products = products.head(10)] *)
Definition top_products (products_table : list product_row)
    : list product_row :=
  head 10 products_table.

End Charts.

Import Charts.

(* ------------------------------------------------------------------ *)
(** * Measures used in the statements *)

Module Measures.

Local Open Scope string_scope.



(** The rows of one customer, in frame order. *)
Definition sales_of (c : string) (df : dataframe) : dataframe :=
  filter (fun r => String.eqb (Customer r) c) df.

(** The score [_bins_to_cuts] gives to one cell, for the edges [bins] it
    ends up using. *)
Definition cell_score (bins : list Q) (labels : list Z)
    (include_lowest : bool) (cell : option Q) : option Z :=
  let id :=
    match cell with
    | None => 0%Z
    | Some q =>
        let i := if include_lowest && Qeq_bool q (hd 0 bins)
                 then 1%nat else searchsorted_left bins q in
        if (i =? length bins)%nat then 0%Z else Z.of_nat i
    end in
  take_nd labels (id - 1)%Z.

End Measures.

Import Measures.

(* ------------------------------------------------------------------ *)
(** * Properties of the pandas operations *)

Section SortFacts.
Context {A : Type} (before : A -> A -> bool).

Lemma insert_perm (x : A) (l : list A) :
  Permutation (insert before x l) (x :: l).
Proof.
  induction l as [|y r IH]; simpl.
  - apply Permutation_refl.
  - destruct (before x y).
    + apply Permutation_refl.
    + apply perm_trans with (y :: x :: r).
      * now apply perm_skip.
      * apply perm_swap.
Qed.

Lemma sort_values_perm (l : list A) : Permutation (sort_values before l) l.
Proof.
  induction l as [|x r IH]; simpl.
  - constructor.
  - apply perm_trans with (x :: sort_values before r).
    + apply insert_perm.
    + now apply perm_skip.
Qed.

Lemma sort_values_length (l : list A) :
  length (sort_values before l) = length l.
Proof. apply Permutation_length, sort_values_perm. Qed.

Lemma sort_values_In (x : A) (l : list A) :
  In x (sort_values before l) <-> In x l.
Proof.
  split; apply Permutation_in.
  - apply sort_values_perm.
  - apply Permutation_sym, sort_values_perm.
Qed.

Hypothesis before_total : forall a b, before a b = true \/ before b a = true.

Lemma insert_hdrel (a x : A) (l : list A) :
  before a x = true ->
  HdRel (fun u v => before u v = true) a l ->
  HdRel (fun u v => before u v = true) a (insert before x l).
Proof.
  intros Hax Hl. destruct l as [|y r]; simpl.
  - now constructor.
  - destruct (before x y); constructor; auto.
    now inversion Hl.
Qed.

Lemma insert_sorted (x : A) (l : list A) :
  Sorted (fun u v => before u v = true) l ->
  Sorted (fun u v => before u v = true) (insert before x l).
Proof.
  induction 1 as [|y r Hr IH Hhd]; simpl.
  - repeat constructor.
  - destruct (before x y) eqn:E.
    + constructor; [constructor; assumption | now constructor].
    + constructor; [assumption|].
      apply insert_hdrel; [|assumption].
      destruct (before_total x y) as [H|H]; congruence.
Qed.

Lemma sort_values_sorted (l : list A) :
  Sorted (fun u v => before u v = true) (sort_values before l).
Proof.
  induction l as [|x r IH]; simpl.
  - constructor.
  - now apply insert_sorted.
Qed.

End SortFacts.

Section UniqueFacts.
Context {A : Type} (eqb : A -> A -> bool).

Lemma unique_length_le (l : list A) :
  (length (unique eqb l) <= length l)%nat.
Proof.
  induction l as [|x r IH]; simpl; [lia|].
  pose proof (filter_length_le (fun y => negb (eqb x y)) (unique eqb r)).
  lia.
Qed.

Lemma unique_incl (x : A) (l : list A) : In x (unique eqb l) -> In x l.
Proof.
  revert x. induction l as [|y r IH]; simpl; intros x; [tauto|].
  intros [->|H]; [now left|].
  apply filter_In in H. right. now apply IH.
Qed.

Hypothesis eqb_eq : forall x y, eqb x y = true <-> x = y.

Lemma unique_In (x : A) (l : list A) : In x (unique eqb l) <-> In x l.
Proof.
  split; [apply unique_incl|].
  induction l as [|y r IH]; simpl; [tauto|].
  intros [->|H]; [now left|].
  destruct (eqb y x) eqn:E.
  - left. now apply eqb_eq.
  - right. apply filter_In. split; [now apply IH|]. now rewrite E.
Qed.

Lemma unique_NoDup (l : list A) : NoDup (unique eqb l).
Proof.
  induction l as [|y r IH]; simpl; constructor.
  - intros H. apply filter_In in H. destruct H as [_ H].
    assert (E : eqb y y = true) by now apply eqb_eq.
    now rewrite E in H.
  - now apply NoDup_filter.
Qed.

End UniqueFacts.

(** ** Sums *)

Lemma Qsum_app (l1 l2 : list Q) : Qsum (l1 ++ l2) == Qsum l1 + Qsum l2.
Proof.
  induction l1 as [|x r IH]; simpl.
  - lra.
  - rewrite IH. lra.
Qed.

Lemma Qsum_perm (l1 l2 : list Q) : Permutation l1 l2 -> Qsum l1 == Qsum l2.
Proof.
  induction 1; simpl; try lra.
Qed.

Lemma Qsum_nonneg (l : list Q) : Forall (fun x => 0 <= x) l -> 0 <= Qsum l.
Proof.
  induction 1; simpl; lra.
Qed.


Section GroupFacts.
Context {A K : Type} (eqb : K -> K -> bool) (key : A -> K) (f : A -> Q).
Hypothesis eqb_eq : forall x y, eqb x y = true <-> x = y.

Lemma group_sum_absent (k : K) (keys : list K) :
  ~ In k keys ->
  Qsum (map (fun k' => if eqb k k' then 1 else 0) keys) == 0.
Proof.
  induction keys as [|k' r IH]; simpl; intros Hk; [lra|].
  destruct (eqb k k') eqn:E.
  - exfalso. apply Hk. left. symmetry. now apply eqb_eq.
  - rewrite IH; [lra | tauto].
Qed.

Lemma group_sum_present (k : K) (keys : list K) :
  NoDup keys -> In k keys ->
  Qsum (map (fun k' => if eqb k k' then 1 else 0) keys) == 1.
Proof.
  induction 1 as [|k' r Hk' Hnd IH]; simpl; [tauto|].
  intros [->|Hin].
  - assert (E : eqb k k = true) by now apply eqb_eq.
    rewrite E, group_sum_absent by assumption. lra.
  - destruct (eqb k k') eqn:E.
    + apply eqb_eq in E. subst. tauto.
    + rewrite IH by assumption. lra.
Qed.

Lemma group_sum_cons (r : A) (df : list A) (keys : list K) :
  Qsum (map (group_sum eqb key f (r :: df)) keys) ==
  f r * Qsum (map (fun k' => if eqb (key r) k' then 1 else 0) keys)
  + Qsum (map (group_sum eqb key f df) keys).
Proof.
  induction keys as [|k ks IH]; simpl; [lra|].
  rewrite IH. unfold group_sum at 1 3. simpl.
  destruct (eqb (key r) k); simpl; lra.
Qed.

(** The groups partition the frame: the group sums add up to the sum
    over all rows. *)
Lemma group_sum_total (df : list A) (keys : list K) :
  NoDup keys -> (forall r, In r df -> In (key r) keys) ->
  Qsum (map (group_sum eqb key f df) keys) == Qsum (map f df).
Proof.
  intros Hnd. induction df as [|r df IH]; intros Hin.
  - unfold group_sum. simpl. clear. induction keys; simpl; lra.
  - rewrite group_sum_cons, group_sum_present; auto.
    + simpl. rewrite IH; [lra|]. intros; apply Hin; now right.
    + apply Hin. now left.
Qed.

End GroupFacts.

Lemma groupby_keys_NoDup {A K : Type} (eqb leb : K -> K -> bool)
    (key : A -> K) (df : list A) :
  (forall x y, eqb x y = true <-> x = y) ->
  NoDup (sort_values leb (unique eqb (map key df))).
Proof.
  intros H.
  eapply Permutation_NoDup.
  - apply Permutation_sym, sort_values_perm.
  - now apply unique_NoDup.
Qed.

Lemma groupby_keys_In {A K : Type} (eqb leb : K -> K -> bool)
    (key : A -> K) (df : list A) (k : K) :
  (forall x y, eqb x y = true <-> x = y) ->
  In k (sort_values leb (unique eqb (map key df))) <-> In k (map key df).
Proof.
  intros H. rewrite sort_values_In. now apply unique_In.
Qed.

Lemma groupby_sum {A K : Type} (eqb leb : K -> K -> bool)
    (key : A -> K) (f : A -> Q) (df : list A) :
  (forall x y, eqb x y = true <-> x = y) ->
  Qsum (map (fun g => Qsum (map f (snd g))) (groupby eqb leb key df))
  == Qsum (map f df).
Proof.
  intros H. unfold groupby. rewrite map_map. simpl.
  apply (group_sum_total eqb key f H).
  - now apply groupby_keys_NoDup.
  - intros r Hr. apply groupby_keys_In; [assumption|]. now apply in_map.
Qed.

(** ** Columns of the product table *)

Lemma Qlt_bool_iff (a b : Q) : Qlt_bool a b = true <-> a < b.
Proof.
  unfold Qlt_bool. rewrite negb_true_iff.
  split; intros H.
  - apply Qnot_le_lt. intros Hle. apply Qle_bool_iff in Hle. congruence.
  - destruct (Qle_bool b a) eqn:E; [|reflexivity].
    apply Qle_bool_iff in E. lra.
Qed.

Lemma Qlt_bool_false_iff (a b : Q) : Qlt_bool a b = false <-> b <= a.
Proof.
  unfold Qlt_bool. rewrite negb_false_iff. apply Qle_bool_iff.
Qed.

Lemma Qle_bool_false_iff (a b : Q) : Qle_bool a b = false <-> b < a.
Proof.
  rewrite <- Qlt_bool_iff. unfold Qlt_bool.
  destruct (Qle_bool a b); simpl; intuition congruence.
Qed.

Lemma Qeq_bool_false_iff (a b : Q) : Qeq_bool a b = false <-> ~ a == b.
Proof.
  rewrite <- Qeq_bool_iff. destruct (Qeq_bool a b); intuition congruence.
Qed.

Lemma cumsum_from_length (acc : float64) (l : list float64) :
  length (cumsum_from acc l) = length l.
Proof.
  revert acc. induction l as [|x r IH]; intros acc; simpl; [reflexivity|].
  destruct x; simpl; now rewrite IH.
Qed.

Lemma cumsum_from_finite (acc : Q) (l : list Q) :
  cumsum_from (Finite acc) (map Finite l) = map Finite (running_from acc l).
Proof.
  revert acc. induction l as [|x r IH]; intros acc; simpl; [reflexivity|].
  now rewrite IH.
Qed.

Lemma Revenue_Pct_col_length (t : list product_agg) :
  length (Revenue_Pct_col t) = length t.
Proof. unfold Revenue_Pct_col. apply length_map. Qed.

Lemma Cum_Pct_col_length (t : list product_agg) :
  length (Cum_Pct_col t) = length t.
Proof.
  unfold Cum_Pct_col, cumsum.
  now rewrite cumsum_from_length, Revenue_Pct_col_length.
Qed.

(** Assembling three columns of equal length into rows loses nothing. *)
Lemma combine3_columns {A B C D : Type} (mk : A -> B -> C -> D)
    (a : list A) (b : list B) (c : list C) :
  length b = length a -> length c = length a ->
  forall (pa : D -> A) (pb : D -> B) (pc : D -> C),
    (forall x y z, pa (mk x y z) = x) ->
    (forall x y z, pb (mk x y z) = y) ->
    (forall x y z, pc (mk x y z) = z) ->
    let rows := map (fun '(x, y, z) => mk x y z) (combine (combine a b) c) in
    map pa rows = a /\ map pb rows = b /\ map pc rows = c.
Proof.
  intros Hb Hc pa pb pc Ha Hb' Hc'. simpl.
  revert b c Hb Hc.
  induction a as [|x a IH]; intros [|y b] [|z c] Hb Hc;
    simpl in *; try discriminate; auto.
  destruct (IH b c) as (E1 & E2 & E3); try congruence.
  rewrite Ha, Hb', Hc'. repeat split; congruence.
Qed.

Lemma products_columns (df : dataframe) :
  map row_agg (products df) = products_agg df /\
  map Revenue_Pct (products df) = Revenue_Pct_col (products_agg df) /\
  map Cum_Pct (products df) = Cum_Pct_col (products_agg df).
Proof.
  unfold products.
  apply (combine3_columns
           (fun p pct cum => mk_product_row p pct cum (abc_category cum)));
    auto using Revenue_Pct_col_length, Cum_Pct_col_length.
Qed.

Lemma products_category (df : dataframe) (row : product_row) :
  In row (products df) -> ABC_Category row = abc_category (Cum_Pct row).
Proof.
  unfold products. intros H. apply in_map_iff in H.
  destruct H as ([[p pct] cum] & <- & _). reflexivity.
Qed.

(** [products["Revenue"].sum()] is the sum of [Total_Sale] over the frame. *)
Lemma products_revenue_total (df : dataframe) :
  Qsum (map Revenue (products_agg df)) == total_sales df.
Proof.
  unfold products_agg, total_sales.
  rewrite (Qsum_perm _ _ (Permutation_map Revenue (sort_values_perm _ _))).
  rewrite map_map. simpl.
  apply (groupby_sum String.eqb String.leb Product Total_Sale df).
  apply String.eqb_eq.
Qed.

(** With a nonzero total every share is a finite number. *)
Lemma Revenue_Pct_col_finite (t : list product_agg) :
  ~ Qsum (map Revenue t) == 0 ->
  Revenue_Pct_col t =
  map Finite (map (fun p => Revenue p / Qsum (map Revenue t) * 100) t).
Proof.
  intros HT. unfold Revenue_Pct_col. rewrite map_map.
  apply map_ext. intros p. simpl.
  apply Qeq_bool_false_iff in HT. now rewrite HT.
Qed.

Lemma Qsum_scaled (T : Q) (l : list Q) :
  ~ T == 0 -> Qsum (map (fun x => x / T * 100) l) == Qsum l / T * 100.
Proof.
  intros HT. induction l as [|x r IH]; simpl.
  - field. assumption.
  - rewrite IH. field. assumption.
Qed.


Lemma running_from_bounds (acc : Q) (l : list Q) :
  Forall (fun x => 0 <= x) l ->
  Forall (fun c => acc <= c) (running_from acc l) /\
  StronglySorted Qle (running_from acc l).
Proof.
  intros H. revert acc.
  induction H as [|x r Hx Hr IH]; intros acc; simpl.
  - split; constructor.
  - destruct (IH (acc + x)) as [Hb Hs]. split.
    + constructor; [lra|].
      eapply Forall_impl; [|exact Hb]. simpl. intros; lra.
    + now constructor.
Qed.

Lemma non_decreasing_finite (l : list Q) :
  StronglySorted Qle l -> non_decreasing (map Finite l).
Proof.
  unfold non_decreasing.
  induction 1 as [|x r Hr IH Hx]; simpl; constructor; auto.
  apply Forall_map. eapply Forall_impl; [|exact Hx].
  simpl. intros y Hy. now apply Qle_bool_iff.
Qed.

(** The cumulative column when the total is not zero. *)
Lemma Cum_Pct_col_finite (t : list product_agg) :
  ~ Qsum (map Revenue t) == 0 ->
  Cum_Pct_col t =
  map Finite
    (running_from 0
       (map (fun p => Revenue p / Qsum (map Revenue t) * 100) t)).
Proof.
  intros HT. unfold Cum_Pct_col, cumsum.
  rewrite (Revenue_Pct_col_finite t HT). apply cumsum_from_finite.
Qed.

Lemma abc_category_finite (c : Q) :
  (abc_category (Finite c) = "A"%string <-> c <= 80) /\
  (abc_category (Finite c) = "B"%string <-> 80 < c /\ c <= 95) /\
  (abc_category (Finite c) = "C"%string <-> 95 < c).
Proof.
  unfold abc_category, fle.
  destruct (Qle_bool c 80) eqn:E80; destruct (Qle_bool c 95) eqn:E95;
    try apply Qle_bool_iff in E80; try apply Qle_bool_iff in E95;
    try apply Qle_bool_false_iff in E80; try apply Qle_bool_false_iff in E95;
    repeat split; intros; try discriminate; try reflexivity; try lra.
Qed.

(** C7: with a nonzero total revenue every revenue share is a finite number
    and the shares of all products add up to exactly 100. *)
Theorem revenue_pct_sums_to_100 (df : dataframe) :
  ~ total_sales df == 0 ->
  exists shares : list Q,
    map Revenue_Pct (products df) = map Finite shares /\
    Qsum shares == 100.
Proof.
  intros HT.
  destruct (products_columns df) as (_ & Epct & _).
  pose proof (products_revenue_total df) as Etot.
  assert (HT' : ~ Qsum (map Revenue (products_agg df)) == 0).
  { intros H. apply HT. now rewrite <- Etot. }
  eexists. split.
  - rewrite Epct. apply Revenue_Pct_col_finite. exact HT'.
  - set (T := Qsum (map Revenue (products_agg df))) in *.
    rewrite <- (map_map Revenue (fun x => x / T * 100)).
    rewrite Qsum_scaled by exact HT'.
    fold T. field. exact HT'.
Qed.

Lemma revenue_pct_sums_to_100_witness :
  ~ total_sales df_shop == 0 /\
  exists shares : list Q,
    map Revenue_Pct (products df_shop) = map Finite shares /\
    Qsum shares == 100.
Proof.
  assert (H : ~ total_sales df_shop == 0) by (vm_compute; discriminate).
  split; [exact H|].
  exact (revenue_pct_sums_to_100 df_shop H).
Defined.



(** ** The top of the product table *)

Lemma products_agg_sorted (df : dataframe) :
  StronglySorted (fun a b => Revenue b <= Revenue a) (products_agg df).
Proof.
  unfold products_agg.
  set (before := fun a b : product_agg => Qle_bool (Revenue b) (Revenue a)).
  set (l := map _ _).
  assert (Hs : Sorted (fun u v => before u v = true) (sort_values before l)).
  { apply sort_values_sorted. intros a b. unfold before.
    destruct (Qle_bool (Revenue b) (Revenue a)) eqn:E; [now left|].
    right. apply Qle_bool_false_iff in E. apply Qle_bool_iff. lra. }
  apply Sorted_StronglySorted in Hs.
  - eapply StronglySorted_ind with
      (P := StronglySorted (fun a b => Revenue b <= Revenue a));
      [constructor | | exact Hs].
    intros a r _ IH Ha. constructor; [assumption|].
    eapply Forall_impl; [|exact Ha]. simpl. intros b.
    unfold before. apply Qle_bool_iff.
  - intros a b c. unfold before. rewrite !Qle_bool_iff. lra.
Qed.

Lemma products_agg_nonempty (df : dataframe) :
  df <> [] -> products_agg df <> [].
Proof.
  destruct df as [|r df]; [congruence|]. intros _ E.
  apply (f_equal (@length product_agg)) in E.
  unfold products_agg, groupby in E.
  rewrite sort_values_length, !length_map, sort_values_length in E.
  simpl in E. discriminate.
Qed.

(** ** A frame with one product *)

Lemma filter_none {A : Type} (f : A -> bool) (l : list A) :
  (forall x, In x l -> f x = false) -> filter f l = [].
Proof.
  induction l as [|x r IH]; simpl; intros H; [reflexivity|].
  rewrite (H x) by now left. apply IH. intros; apply H; now right.
Qed.

Lemma filter_all {A : Type} (f : A -> bool) (l : list A) :
  (forall x, In x l -> f x = true) -> filter f l = l.
Proof.
  induction l as [|x r IH]; simpl; intros H; [reflexivity|].
  rewrite (H x) by now left. f_equal. apply IH. intros; apply H; now right.
Qed.

Lemma unique_constant (p : string) (l : list string) :
  (forall y, In y l -> y = p) -> unique String.eqb (p :: l) = [p].
Proof.
  intros H. simpl. f_equal. apply filter_none.
  intros y Hy. apply unique_incl in Hy. rewrite (H y Hy).
  now rewrite String.eqb_refl.
Qed.

Lemma products_agg_single (df : dataframe) (p : string) :
  df <> [] -> (forall r, In r df -> Product r = p) ->
  products_agg df =
  [ {| agg_Product := p;
       Num_Sales := Z.of_nat (length df);
       Units_Sold := Qsum (map Amount df);
       Revenue := total_sales df |} ].
Proof.
  intros Hne Hp. unfold products_agg, groupby, total_sales.
  destruct df as [|r0 df]; [congruence|].
  assert (Ekeys : unique String.eqb (map Product (r0 :: df)) = [p]).
  { simpl map. rewrite (Hp r0) by now left.
    apply unique_constant. intros y Hy. apply in_map_iff in Hy.
    destruct Hy as (r & <- & Hr). apply Hp. now right. }
  rewrite Ekeys. cbn [sort_values insert map fst snd].
  rewrite filter_all; [reflexivity|].
  intros r Hr. rewrite (Hp r Hr). apply String.eqb_refl.
Qed.

Lemma single_product_row (df : dataframe) (p : string) :
  (forall r, In r df -> Product r = p) -> 0 < total_sales df ->
  exists row : product_row,
    products df = [row] /\
    agg_Product row = p /\
    (exists c : Q, Cum_Pct row = Finite c /\ c == 100) /\
    ABC_Category row = "C"%string.
Proof.
  intros Hp HT.
  assert (Hne : df <> []).
  { intros ->. vm_compute in HT. discriminate. }
  unfold products. rewrite (products_agg_single df p Hne Hp).
  set (T := total_sales df) in *.
  set (a := {| agg_Product := p;
               Num_Sales := Z.of_nat (length df);
               Units_Sold := Qsum (map Amount df);
               Revenue := T |}).
  assert (HT0 : ~ Qsum (map Revenue [a]) == 0).
  { simpl. lra. }
  rewrite (Cum_Pct_col_finite [a] HT0), (Revenue_Pct_col_finite [a] HT0).
  cbn [map combine running_from].
  eexists. split; [reflexivity|].
  cbn [row_agg agg_Product Cum_Pct ABC_Category].
  assert (Ec : 0 + Revenue a / Qsum (map Revenue [a]) * 100 == 100).
  { simpl. field. lra. }
  split; [reflexivity|]. split.
  - eexists. split; [reflexivity|]. exact Ec.
  - apply abc_category_finite. rewrite Ec. reflexivity.
Qed.

(** C10: the product with the largest revenue need not be in category "A".
    With a positive total revenue, the first row of the product table has
    the largest revenue, its cumulative percentage is its own share, and it
    is in category "A" exactly when that share is at most 80.  In
    particular, when the frame holds a single product, that product's
    cumulative percentage is 100 and its category is "C". *)
Theorem top_product_category (df : dataframe) :
  0 < total_sales df ->
  (exists (top : product_row) (rest : list product_row) (share : Q),
      products df = top :: rest /\
      Forall (fun row : product_row => Revenue row <= Revenue top) rest /\
      Revenue_Pct top = Finite share /\
      (exists c : Q, Cum_Pct top = Finite c /\ c == share) /\
      (ABC_Category top = "A"%string <-> share <= 80)) /\
  (forall p : string,
      (forall r, In r df -> Product r = p) ->
      exists row : product_row,
        products df = [row] /\
        agg_Product row = p /\
        (exists c : Q, Cum_Pct row = Finite c /\ c == 100) /\
        ABC_Category row = "C"%string).
Proof.
  intros HT. split.
  - assert (Hne : df <> []).
    { intros ->. vm_compute in HT. discriminate. }
    destruct (products_columns df) as (Eagg & Epct & Ecum).
    pose proof (products_revenue_total df) as Etot.
    pose proof (products_agg_sorted df) as Hs.
    pose proof (products_agg_nonempty df Hne) as Hne'.
    pose proof (products_category df) as Hcat.
    assert (HT0 : ~ Qsum (map Revenue (products_agg df)) == 0).
    { rewrite Etot. lra. }
    rewrite (Revenue_Pct_col_finite _ HT0) in Epct.
    rewrite (Cum_Pct_col_finite _ HT0) in Ecum.
    set (T := Qsum (map Revenue (products_agg df))) in *.
    destruct (products_agg df) as [|a t]; [congruence|].
    destruct (products df) as [|top rest]; [discriminate|].
    cbn [map running_from] in Eagg, Epct, Ecum.
    injection Eagg as Ea Et. injection Epct as Ep _. injection Ecum as Ec _.
    exists top, rest, (Revenue a / T * 100).
    split; [reflexivity|]. split; [|split; [exact Ep|split]].
    + inversion Hs as [|? ? _ Ha]; subst a t.
      rewrite Forall_map in Ha. exact Ha.
    + eexists. split; [exact Ec|]. lra.
    + rewrite (Hcat top (or_introl eq_refl)), Ec.
      destruct (abc_category_finite (0 + Revenue a / T * 100)) as [HA _].
      rewrite HA. split; intros; lra.
  - intros p Hp. now apply single_product_row.
Qed.

Lemma top_product_category_witness :
  0 < total_sales df_single /\
  exists row : product_row,
    products df_single = [row] /\
    agg_Product row = "Soap"%string /\
    (exists c : Q, Cum_Pct row = Finite c /\ c == 100) /\
    ABC_Category row = "C"%string.
Proof.
  assert (H : 0 < total_sales df_single) by (vm_compute; reflexivity).
  split; [exact H|].
  apply (proj2 (top_product_category df_single H) "Soap"%string).
  intros r [<-|[<-|[]]]; reflexivity.
Defined.


(** With two products, one of which brings nine tenths of the revenue, the
    top product is "B". *)
Example dominant_product_is_B :
  map (fun row : product_row => (agg_Product row, ABC_Category row))
      (products df_dominant)
  = [("Soap", "B"); ("Bleach", "C")]%string.
Proof. vm_compute. reflexivity. Qed.

(** ** Monotonicity of the cumulative column *)

(** C6, as stated, fails: with a sale of 10 and a refund of 5 the total is
    5, the shares are 200 and -100, and the cumulative column goes from 200
    down to 100. *)
Lemma cum_pct_decreases_on_refund :
  ~ non_decreasing (map Cum_Pct (products df_refund)).
Proof.
  unfold non_decreasing. intros H.
  inversion H as [|a l Hl Ha E]; subst.
  inversion Ha as [|b l' Hb _ E']; subst.
  vm_compute in Hb. discriminate.
Qed.

(** With a total of zero the cumulative column is NaN throughout, and NaN
    is not below or equal to NaN. *)
Example cum_pct_nan_on_zero_total :
  map Cum_Pct (products df_free) = [NaN; NaN] /\
  ~ non_decreasing (map Cum_Pct (products df_free)).
Proof.
  split; [vm_compute; reflexivity|].
  unfold non_decreasing. intros H.
  inversion H as [|a l Hl Ha E]; subst.
  inversion Ha as [|b l' Hb _ E']; subst.
  vm_compute in Hb. discriminate.
Qed.

(** C6 (amended): when no product has a negative revenue and the total
    revenue is not zero, the cumulative percentage never decreases along
    the product table. *)
Theorem cum_pct_non_decreasing (df : dataframe) :
  Forall (fun p => 0 <= Revenue p) (products_agg df) ->
  ~ total_sales df == 0 ->
  non_decreasing (map Cum_Pct (products df)).
Proof.
  intros Hpos HT.
  destruct (products_columns df) as (_ & _ & Ecum).
  pose proof (products_revenue_total df) as Etot.
  set (t := products_agg df) in *.
  assert (HT0 : ~ Qsum (map Revenue t) == 0).
  { intros H. apply HT. now rewrite <- Etot. }
  assert (HTpos : 0 < Qsum (map Revenue t)).
  { assert (0 <= Qsum (map Revenue t)).
    { apply Qsum_nonneg. now apply Forall_map. }
    lra. }
  rewrite Ecum, (Cum_Pct_col_finite t HT0).
  apply non_decreasing_finite, running_from_bounds.
  apply Forall_map. eapply Forall_impl; [|exact Hpos].
  simpl. intros a Ha.
  apply Qmult_le_0_compat; [|lra].
  apply Qmult_le_0_compat; [assumption|].
  apply Qlt_le_weak, Qinv_lt_0_compat. exact HTpos.
Qed.

Lemma cum_pct_non_decreasing_witness :
  Forall (fun p => 0 <= Revenue p) (products_agg df_shop) /\
  ~ total_sales df_shop == 0 /\
  non_decreasing (map Cum_Pct (products df_shop)).
Proof.
  assert (H1 : Forall (fun p => 0 <= Revenue p) (products_agg df_shop)).
  { vm_compute. repeat constructor; discriminate. }
  assert (H2 : ~ total_sales df_shop == 0) by (vm_compute; discriminate).
  repeat split; try assumption.
  exact (cum_pct_non_decreasing df_shop H1 H2).
Defined.

(** ** Binning *)

(** What a binning returns: a column as long as its input whose cells are
    missing or hold one of the labels. *)
Lemma bins_to_cuts_ok (x : list (option Q)) (bins : list Q) (labels : list Z)
    (il : bool) (d : duplicates) (r : list (option Z)) :
  bins_to_cuts x bins labels il d = Ok r ->
  length r = length x /\
  Forall (fun o => forall z, o = Some z -> In z labels) r.
Proof.
  unfold bins_to_cuts.
  destruct (_ && match d with dup_raise => true | dup_drop => false end);
    [discriminate|].
  destruct (negb (length (unique Z.eqb labels) =? length labels)%nat);
    [discriminate|].
  destruct (negb (length labels =? _)%nat); [discriminate|].
  intros E. injection E as <-. split.
  - now rewrite length_map, length_map.
  - apply Forall_map, Forall_map, Forall_forall. intros v _ z.
    unfold take_nd. destruct (_ =? -1)%Z; [discriminate|].
    apply nth_error_In.
Qed.

Lemma bins_to_cuts_raises (x : list (option Q)) (bins : list Q)
    (labels : list Z) (il : bool) (d : duplicates) (e : exn) :
  bins_to_cuts x bins labels il d = Raise e -> e = ValueError.
Proof.
  unfold bins_to_cuts.
  repeat match goal with
         | |- (if ?c then _ else _) = _ -> _ => destruct c
         end; congruence.
Qed.

Lemma qcut_ok (x : list (option Q)) (q : nat) (labels : list Z)
    (d : duplicates) (r : list (option Z)) :
  qcut x q labels d = Ok r ->
  length r = length x /\
  Forall (fun o => forall z, o = Some z -> In z labels) r.
Proof.
  unfold qcut. destruct (dropna x) eqn:E.
  - destruct d; [discriminate|].
    destruct (negb _); [discriminate|].
    destruct (negb _); [discriminate|].
    intros H. injection H as <-. split.
    + apply length_map.
    + apply Forall_map, Forall_forall. discriminate.
  - apply bins_to_cuts_ok.
Qed.

Lemma qcut_raises (x : list (option Q)) (q : nat) (labels : list Z)
    (d : duplicates) (e : exn) :
  qcut x q labels d = Raise e -> e = ValueError.
Proof.
  unfold qcut. destruct (dropna x).
  - destruct d; [congruence|].
    repeat match goal with
           | |- (if ?c then _ else _) = _ -> _ => destruct c
           end; congruence.
  - apply bins_to_cuts_raises.
Qed.

Lemma cut_ok (x : list (option Q)) (n : nat) (labels : list Z)
    (r : list (option Z)) :
  cut x n labels = Ok r ->
  length r = length x /\
  Forall (fun o => forall z, o = Some z -> In z labels) r.
Proof.
  unfold cut. destruct (nbins_to_bins x n); simpl; [|discriminate].
  apply bins_to_cuts_ok.
Qed.

Lemma rfm_score_ok (series : list (option Q)) (ascending : bool)
    (r : list (option Z)) :
  rfm_score series ascending = Ok r ->
  length r = length series /\
  Forall (fun o => forall z, o = Some z -> is_score z) r.
Proof.
  intros H.
  assert (Hl : forall z, In z (score_labels ascending) -> is_score z).
  { unfold is_score. destruct ascending; simpl; intros z Hz;
      repeat (destruct Hz as [<-|Hz]; [lia|]); contradiction. }
  assert (Hr : length r = length series /\
               Forall (fun o => forall z, o = Some z ->
                                  In z (score_labels ascending)) r).
  { unfold rfm_score, try_except_ValueError in H.
    destruct (qcut series 5 (score_labels ascending) dup_drop) as [r'|e] eqn:E.
    - injection H as <-. now apply qcut_ok in E.
    - apply qcut_raises in E. subst e. now apply cut_ok in H. }
  destruct Hr as [Hlen Hin]. split; [assumption|].
  eapply Forall_impl; [|exact Hin]. simpl. auto.
Qed.

(** *** The equal-width edges are distinct *)

Lemma unique_increasing (l : list Q) :
  StronglySorted Qlt l -> unique Qeq_bool l = l.
Proof.
  induction 1 as [|x r Hr IH Hx]; simpl; [reflexivity|].
  rewrite IH. f_equal. apply filter_all.
  intros y Hy. rewrite Forall_forall in Hx. specialize (Hx y Hy).
  apply negb_true_iff, Qeq_bool_false_iff. lra.
Qed.

Lemma ramp_increasing (a step : Q) (n s : nat) :
  0 < step ->
  StronglySorted Qlt
    (map (fun i => a + inject_Z (Z.of_nat i) * step) (seq s n)).
Proof.
  intros Hstep. revert s.
  induction n as [|n IH]; intros s; simpl; constructor; [apply IH|].
  apply Forall_map, Forall_forall. intros i Hi. apply in_seq in Hi.
  assert (Hlt : inject_Z (Z.of_nat s) < inject_Z (Z.of_nat i)).
  { rewrite <- Zlt_Qlt. lia. }
  nra.
Qed.

Lemma linspace_increasing (a b : Q) (n : nat) :
  a < b -> (2 <= n)%nat -> StronglySorted Qlt (linspace a b n).
Proof.
  intros Hab Hn. unfold linspace. apply ramp_increasing.
  apply Qlt_shift_div_l; [|lra].
  change 0 with (inject_Z 0). rewrite <- Zlt_Qlt. lia.
Qed.

Lemma linspace_length (a b : Q) (n : nat) : length (linspace a b n) = n.
Proof. unfold linspace. now rewrite length_map, length_seq. Qed.

Lemma fold_Qmin'_le (l : list Q) (v : Q) : fold_left Qmin' l v <= v.
Proof.
  revert v. induction l as [|x r IH]; intros v; simpl; [lra|].
  specialize (IH (Qmin' v x)). unfold Qmin' in *.
  destruct (Qle_bool v x) eqn:E; [assumption|].
  apply Qle_bool_false_iff in E. lra.
Qed.

Lemma fold_Qmax'_ge (l : list Q) (v : Q) : v <= fold_left Qmax' l v.
Proof.
  revert v. induction l as [|x r IH]; intros v; simpl; [lra|].
  specialize (IH (Qmax' v x)). unfold Qmax' in *.
  destruct (Qle_bool v x) eqn:E; [|assumption].
  apply Qle_bool_iff in E. lra.
Qed.

Lemma widen_positive (m : Q) :
  0 < (if negb (Qeq_bool m 0) then (1 # 1000) * Qabs m else 1 # 1000).
Proof.
  destruct (Qeq_bool m 0) eqn:E; simpl; [reflexivity|].
  apply Qeq_bool_false_iff in E.
  destruct (Qlt_le_dec m 0) as [Hneg|Hpos].
  - rewrite Qabs_neg by lra. lra.
  - rewrite Qabs_pos by lra.
    assert (0 < m) by (apply Qle_lteq in Hpos; destruct Hpos as [H|H];
                       [assumption | exfalso; apply E; now symmetry]).
    lra.
Qed.

(** With at least one value present, [nbins >= 1] equal-width bins have
    [nbins + 1] strictly increasing edges. *)
Lemma nbins_to_bins_ok (x : list (option Q)) (n : nat) :
  dropna x <> [] -> (1 <= n)%nat ->
  exists bins, nbins_to_bins x n = Ok bins /\
               length bins = S n /\ StronglySorted Qlt bins.
Proof.
  intros Hx Hn. unfold nbins_to_bins.
  destruct (n <? 1)%nat eqn:En; [apply Nat.ltb_lt in En; lia|].
  destruct (dropna x) as [|v r]; [congruence|].
  set (mn := fold_left Qmin' r v). set (mx := fold_left Qmax' r v).
  assert (Hle : mn <= mx).
  { pose proof (fold_Qmin'_le r v). pose proof (fold_Qmax'_ge r v).
    unfold mn, mx. lra. }
  destruct (Qeq_bool mn mx) eqn:E.
  - eexists. split; [reflexivity|]. split.
    + rewrite linspace_length. lia.
    + apply linspace_increasing; [|lia].
      apply Qeq_bool_iff in E.
      pose proof (widen_positive mn). pose proof (widen_positive mx). lra.
  - apply Qeq_bool_false_iff in E.
    assert (Hlt : mn < mx).
    { apply Qle_lteq in Hle. destruct Hle; [assumption | contradiction]. }
    pose proof (linspace_increasing mn mx (n + 1) Hlt ltac:(lia)) as Hs.
    pose proof (linspace_length mn mx (n + 1)) as Hlen.
    destruct (linspace mn mx (n + 1)) as [|b0 bs] eqn:Eb;
      [simpl in Hlen; lia|].
    eexists. split; [reflexivity|]. split.
    + simpl in *. lia.
    + inversion Hs as [|? ? Hbs Hb0]; subst. constructor; [assumption|].
      eapply Forall_impl; [|exact Hb0]. simpl. intros y Hy. nra.
Qed.

(** The fallback succeeds whenever the series holds a value. *)
Lemma cut_total (x : list (option Q)) (ascending : bool) :
  dropna x <> [] -> exists r, cut x 5 (score_labels ascending) = Ok r.
Proof.
  intros Hx.
  destruct (nbins_to_bins_ok x 5 Hx ltac:(lia)) as (bins & E & Hlen & Hs).
  unfold cut. rewrite E. simpl bind.
  unfold bins_to_cuts. rewrite (unique_increasing bins Hs).
  rewrite Nat.ltb_irrefl. simpl andb. cbv iota.
  replace (negb (length (unique Z.eqb (score_labels ascending))
                 =? length (score_labels ascending))%nat) with false
    by now destruct ascending.
  replace (negb (length (score_labels ascending) =? length bins - 1)%nat)
    with false by (rewrite Hlen; now destruct ascending).
  eexists. reflexivity.
Qed.

Lemma rfm_score_total (x : list (option Q)) (ascending : bool) :
  dropna x <> [] -> exists r, rfm_score x ascending = Ok r.
Proof.
  intros Hx. unfold rfm_score, try_except_ValueError.
  destruct (qcut x 5 (score_labels ascending) dup_drop) as [r|e] eqn:E.
  - now exists r.
  - apply qcut_raises in E. subst e. now apply cut_total.
Qed.

(** ** The customer table *)

Lemma fold_max_bounds (l : list Z) (x : Z) :
  (x <= fold_left Z.max l x)%Z /\
  Forall (fun y => (y <= fold_left Z.max l x)%Z) l /\
  In (fold_left Z.max l x) (x :: l).
Proof.
  revert x. induction l as [|y r IH]; intros x; simpl.
  - repeat split; [lia | constructor | now left].
  - destruct (IH (Z.max x y)) as (H1 & H2 & H3). repeat split.
    + lia.
    + constructor; [lia | assumption].
    + destruct H3 as [H3|H3]; [|now right; right].
      rewrite <- H3. destruct (Z.max_spec x y) as [[_ ->]|[_ ->]]; auto.
Qed.

Lemma ts_max_some (l : list Z) :
  l <> [] ->
  exists m, ts_max l = Some m /\ In m l /\ Forall (fun y => (y <= m)%Z) l.
Proof.
  destruct l as [|x r]; [congruence|]. intros _. simpl.
  destruct (fold_max_bounds r x) as (H1 & H2 & H3).
  eexists. split; [reflexivity|]. split; [exact H3|].
  constructor; assumption.
Qed.

(** The recency of a non-empty group of rows of the frame is a number of
    days, and at least one. *)
Lemma recency_of_group (df g : dataframe) :
  g <> [] -> incl g df ->
  exists n, recency_of (reference_date df) (map Sale_Date g) = Some n /\
            (1 <= n)%Z.
Proof.
  intros Hg Hincl.
  assert (Hdf : map Sale_Date df <> []).
  { destruct g as [|r g']; [congruence|].
    destruct df; [|discriminate]. exfalso. apply (Hincl r). now left. }
  destruct (ts_max_some _ Hdf) as (M & EM & _ & HM).
  assert (Hg' : map Sale_Date g <> []) by (destruct g; [congruence|discriminate]).
  destruct (ts_max_some _ Hg') as (m & Em & Hin & _).
  unfold recency_of, reference_date. rewrite EM, Em. simpl.
  eexists. split; [reflexivity|].
  assert (Hle : (m <= M)%Z).
  { rewrite Forall_forall in HM. apply HM.
    apply in_map_iff in Hin. destruct Hin as (r & <- & Hr).
    apply in_map. now apply Hincl. }
  unfold days, Timedelta_days, ns_per_day.
  apply Z.div_le_lower_bound; lia.
Qed.

Lemma rfm_agg_row_inv (df : dataframe) (a : rfm_agg_row) :
  In a (rfm_agg df) ->
  exists g, g <> [] /\ incl g df /\
    (forall r, In r g -> Customer r = agg_Customer a) /\
    agg_Recency a = recency_of (reference_date df) (map Sale_Date g) /\
    agg_Frequency a = Z.of_nat (length g) /\
    agg_Monetary a = Qsum (map Total_Sale g).
Proof.
  unfold rfm_agg, groupby. rewrite map_map. intros H.
  apply in_map_iff in H. destruct H as (k & <- & Hk). simpl.
  apply (groupby_keys_In String.eqb String.leb Customer df k String.eqb_eq)
    in Hk.
  apply in_map_iff in Hk. destruct Hk as (r0 & Ek & Hr0).
  exists (filter (fun r => String.eqb (Customer r) k) df).
  repeat split.
  - intros E.
    assert (Hin : In r0 (filter (fun r => String.eqb (Customer r) k) df)).
    { apply filter_In. split; [assumption|]. now apply String.eqb_eq. }
    now rewrite E in Hin.
  - intros r Hr. now apply filter_In in Hr.
  - intros r Hr. apply filter_In in Hr. now apply String.eqb_eq.
Qed.

Lemma rfm_agg_customers (df : dataframe) (r : sale) :
  In r df -> exists a, In a (rfm_agg df) /\ agg_Customer a = Customer r.
Proof.
  intros Hr. unfold rfm_agg.
  assert (Hk : In (Customer r)
                 (sort_values String.leb
                    (unique String.eqb (map Customer df)))).
  { apply groupby_keys_In; [apply String.eqb_eq | now apply in_map]. }
  unfold groupby. rewrite map_map.
  eexists. split; [apply in_map; exact Hk | reflexivity].
Qed.

Lemma rfm_agg_nonempty (df : dataframe) : df <> [] -> rfm_agg df <> [].
Proof.
  destruct df as [|r df]; [congruence|]. intros _ E.
  destruct (rfm_agg_customers (r :: df) r) as (a & Ha & _); [now left|].
  now rewrite E in Ha.
Qed.

Lemma rank_first_from_length (earlier all l : list Q) :
  length (rank_first_from earlier all l) = length l.
Proof.
  revert earlier. induction l as [|v r IH]; intros earlier; simpl;
    [reflexivity | now rewrite IH].
Qed.

Lemma rank_first_length (l : list Q) : length (rank_first l) = length l.
Proof. apply rank_first_from_length. Qed.

Lemma dropna_map_Some {A : Type} (l : list A) : dropna (map Some l) = l.
Proof. induction l as [|x r IH]; simpl; congruence. Qed.

(** Assembling four columns of equal length into rows loses nothing. *)
Lemma combine4_columns {A B C D E : Type} (mk : A -> B -> C -> D -> E)
    (a : list A) (b : list B) (c : list C) (d : list D) :
  length b = length a -> length c = length a -> length d = length a ->
  forall (pa : E -> A) (pb : E -> B) (pc : E -> C) (pd : E -> D),
    (forall x y z w, pa (mk x y z w) = x) ->
    (forall x y z w, pb (mk x y z w) = y) ->
    (forall x y z w, pc (mk x y z w) = z) ->
    (forall x y z w, pd (mk x y z w) = w) ->
    let rows := map (fun '(x, y, z, w) => mk x y z w)
                    (combine (combine (combine a b) c) d) in
    map pa rows = a /\ map pb rows = b /\ map pc rows = c /\ map pd rows = d.
Proof.
  intros Hb Hc Hd pa pb pc pd Ha Hb' Hc' Hd'. simpl.
  revert b c d Hb Hc Hd.
  induction a as [|x a IH]; intros [|y b] [|z c] [|w d] Hb Hc Hd;
    simpl in *; try discriminate; auto.
  destruct (IH b c d) as (E1 & E2 & E3 & E4); try congruence.
  rewrite Ha, Hb', Hc', Hd'. repeat split; congruence.
Qed.

(** The scored frame: its columns are the metric rows and the three
    results of [rfm_score]. *)
Lemma rfm_scored_columns (df : dataframe) (ss : list rfm_scored_row) :
  rfm_scored df = Ok ss ->
  map metrics ss = rfm_agg df /\
  rfm_score (map (fun a => option_map inject_Z (agg_Recency a)) (rfm_agg df))
            true = Ok (map R_score ss) /\
  rfm_score (map Some (rank_first
               (map (fun a => inject_Z (agg_Frequency a)) (rfm_agg df))))
            false = Ok (map F_score ss) /\
  rfm_score (map Some (rank_first (map agg_Monetary (rfm_agg df))))
            false = Ok (map M_score ss).
Proof.
  unfold rfm_scored. set (t := rfm_agg df).
  destruct (rfm_score (map _ t) true) as [r|] eqn:Er; [|discriminate].
  destruct (rfm_score (map Some (rank_first (map (fun a => _) t))) false)
    as [f|] eqn:Ef; [|discriminate].
  destruct (rfm_score (map Some (rank_first (map agg_Monetary t))) false)
    as [m|] eqn:Em; [|discriminate].
  cbn [bind]. intros H. injection H as <-.
  apply rfm_score_ok in Er, Ef, Em.
  destruct Er as [Lr _], Ef as [Lf _], Em as [Lm _].
  rewrite !length_map in *. rewrite rank_first_length, length_map in *.
  destruct (combine4_columns mk_rfm_scored_row t r f m Lr Lf Lm
              metrics R_score F_score M_score) as (E1 & E2 & E3 & E4);
    try reflexivity.
  rewrite E1, E2, E3, E4. auto.
Qed.

(** The script goes through on every frame that has a row. *)
Lemma rfm_scored_total (df : dataframe) :
  df <> [] -> exists ss, rfm_scored df = Ok ss.
Proof.
  intros Hdf. pose proof (rfm_agg_nonempty df Hdf) as Ht.
  unfold rfm_scored. set (t := rfm_agg df) in *.
  assert (H1 : dropna (map (fun a => option_map inject_Z (agg_Recency a)) t)
               <> []).
  { destruct t as [|a t'] eqn:Et; [congruence|].
    destruct (rfm_agg_row_inv df a) as (g & Hg & Hincl & _ & ER & _).
    { fold t. rewrite Et. now left. }
    destruct (recency_of_group df g Hg Hincl) as (n & En & _).
    simpl. rewrite ER, En. discriminate. }
  assert (H2 : dropna (map Some (rank_first
                 (map (fun a => inject_Z (agg_Frequency a)) t))) <> []).
  { rewrite dropna_map_Some. intros E. apply (f_equal (@length Q)) in E.
    rewrite rank_first_length, length_map in E.
    destruct t; [congruence | discriminate]. }
  assert (H3 : dropna (map Some (rank_first (map agg_Monetary t))) <> []).
  { rewrite dropna_map_Some. intros E. apply (f_equal (@length Q)) in E.
    rewrite rank_first_length, length_map in E.
    destruct t; [congruence | discriminate]. }
  destruct (rfm_score_total _ true H1) as [r ->].
  destruct (rfm_score_total _ false H2) as [f ->].
  destruct (rfm_score_total _ false H3) as [m ->].
  cbn [bind]. eexists. reflexivity.
Qed.

Lemma rfm_total (df : dataframe) : df <> [] -> exists t, rfm df = Ok t.
Proof.
  intros Hdf. destruct (rfm_scored_total df Hdf) as [ss E].
  unfold rfm. rewrite E. cbn [bind]. eexists. reflexivity.
Qed.

Lemma rfm_rows (df : dataframe) (t : list rfm_row) (row : rfm_row) :
  rfm df = Ok t ->
  exists ss, rfm_scored df = Ok ss /\
    (In row t <-> exists s, In s ss /\ row = fill_and_segment s).
Proof.
  unfold rfm. destruct (rfm_scored df) as [ss|]; [|discriminate].
  cbn [bind]. intros H. injection H as <-.
  exists ss. split; [reflexivity|].
  rewrite sort_values_In, in_map_iff. firstorder.
Qed.

Lemma scored_row_scores (df : dataframe) (ss : list rfm_scored_row)
    (s : rfm_scored_row) :
  rfm_scored df = Ok ss -> In s ss ->
  (forall z, R_score s = Some z -> is_score z) /\
  (forall z, F_score s = Some z -> is_score z) /\
  (forall z, M_score s = Some z -> is_score z).
Proof.
  intros E Hs.
  destruct (rfm_scored_columns df ss E) as (_ & ER & EF & EM).
  apply rfm_score_ok in ER, EF, EM.
  destruct ER as [_ HR], EF as [_ HF], EM as [_ HM].
  rewrite Forall_map in HR, HF, HM. rewrite Forall_forall in HR, HF, HM.
  split; [|split]; intros z Ez.
  - now apply (HR s Hs).
  - now apply (HF s Hs).
  - now apply (HM s Hs).
Qed.

Lemma fillna_score (o : option Z) :
  (forall z, o = Some z -> is_score z) -> is_score (fillna 3%Z o).
Proof.
  destruct o as [z|]; simpl; intros H; [now apply H | unfold is_score; lia].
Qed.

(* ------------------------------------------------------------------ *)
(** * Segmentation *)

(** C3: the segment is a function of the triple (R, F, M) alone, and it is
    the label of the first rule, in the order Champions, Loyal, Potential,
    At Risk, Lost, whose condition holds, "Occasional" when none does.  In
    particular (5,5,5) is "Champions", (1,1,1) is "Lost", (5,1,5) is
    "Potential" and (3,3,3) is "Occasional". *)
Theorem segment_customer_rules :
  (forall r f m : Z, segment_customer r f m = segment_by_rules r f m) /\
  segment_customer 5 5 5 = "Champions"%string /\
  segment_customer 1 1 1 = "Lost"%string /\
  segment_customer 5 1 5 = "Potential"%string /\
  segment_customer 3 3 3 = "Occasional"%string.
Proof.
  split; [|repeat split].
  intros r f m.
  unfold segment_customer, segment_by_rules, segment_rules, first_match.
  rewrite !Z.geb_leb. reflexivity.
Qed.

(** Every row of the customer table carries the segment of its own scores. *)
Lemma rfm_segment_of_scores (df : dataframe) (t : list rfm_row)
    (row : rfm_row) :
  rfm df = Ok t -> In row t ->
  Segment row = segment_customer (R row) (F row) (M row).
Proof.
  intros E Hrow. destruct (rfm_rows df t row E) as (ss & _ & H).
  apply H in Hrow. destruct Hrow as (s & _ & ->). reflexivity.
Qed.

(* ------------------------------------------------------------------ *)
(** * Recency *)

(** C9: on a frame that has a row, the reference date is the latest sale
    date plus one day, every customer of the frame has a metric row, every
    metric row has a recency of at least one day, and so has every row of
    the final customer table. *)
Theorem recency_at_least_one (df : dataframe) :
  df <> [] ->
  (exists latest : Z,
      In latest (map Sale_Date df) /\
      Forall (fun d => (d <= latest)%Z) (map Sale_Date df) /\
      reference_date df = Some (latest + Timedelta_days 1)%Z) /\
  (forall r, In r df ->
      exists a, In a (rfm_agg df) /\ agg_Customer a = Customer r) /\
  (forall a, In a (rfm_agg df) ->
      exists n : Z, agg_Recency a = Some n /\ (1 <= n)%Z) /\
  (exists t, rfm df = Ok t /\ forall row, In row t -> (1 <= Recency row)%Z).
Proof.
  intros Hdf.
  assert (Hagg : forall a, In a (rfm_agg df) ->
                   exists n : Z, agg_Recency a = Some n /\ (1 <= n)%Z).
  { intros a Ha.
    destruct (rfm_agg_row_inv df a Ha) as (g & Hg & Hincl & _ & ER & _).
    rewrite ER. now apply recency_of_group. }
  split; [|split; [|split]].
  - assert (Hd : map Sale_Date df <> [])
      by (destruct df; [congruence | discriminate]).
    destruct (ts_max_some _ Hd) as (M & EM & Hin & Hle).
    exists M. repeat split; try assumption.
    unfold reference_date. now rewrite EM.
  - apply rfm_agg_customers.
  - exact Hagg.
  - destruct (rfm_total df Hdf) as [t Et]. exists t. split; [exact Et|].
    intros row Hrow.
    destruct (rfm_rows df t row Et) as (ss & Ess & H).
    apply H in Hrow. destruct Hrow as (s & Hs & ->).
    destruct (rfm_scored_columns df ss Ess) as (Em & _).
    assert (Ha : In (metrics s) (rfm_agg df)).
    { rewrite <- Em. now apply in_map. }
    destruct (Hagg _ Ha) as (n & En & Hn).
    unfold fill_and_segment. cbn [Recency]. now rewrite En.
Qed.

Lemma recency_at_least_one_witness :
  df_shop <> [] /\
  (forall a, In a (rfm_agg df_shop) ->
      exists n : Z, agg_Recency a = Some n /\ (1 <= n)%Z).
Proof.
  assert (H : df_shop <> []) by discriminate.
  split; [exact H|].
  exact (proj1 (proj2 (proj2 (recency_at_least_one df_shop H)))).
Defined.

(* ------------------------------------------------------------------ *)
(** * Scores *)

(** C2: the script fails only on a frame without rows.  On every other
    frame it produces the customer table, in which every customer of the
    frame has a row and every row has R, F and M in 1..5. *)
Theorem rfm_scores_in_range (df : dataframe) :
  match rfm df with
  | Ok t =>
      (forall r, In r df ->
         exists row, In row t /\ rfm_Customer row = Customer r) /\
      (forall row, In row t ->
         is_score (R row) /\ is_score (F row) /\ is_score (M row))
  | Raise _ => df = []
  end.
Proof.
  destruct (rfm df) as [t|e] eqn:Et.
  - split.
    + intros r Hr.
      destruct (rfm_agg_customers df r Hr) as (a & Ha & Ea).
      destruct (rfm_rows df t (mk_rfm_row EmptyString 0 0 0 0 0 0 EmptyString)
                  Et) as (ss & Ess & _).
      destruct (rfm_scored_columns df ss Ess) as (Em & _).
      rewrite <- Em in Ha. apply in_map_iff in Ha.
      destruct Ha as (s & Es & Hs).
      exists (fill_and_segment s). split.
      * destruct (rfm_rows df t (fill_and_segment s) Et) as (ss' & Ess' & H).
        apply H. exists s. split; [congruence | reflexivity].
      * cbn. now rewrite Es.
    + intros row Hrow.
      destruct (rfm_rows df t row Et) as (ss & Ess & H).
      apply H in Hrow. destruct Hrow as (s & Hs & ->).
      destruct (scored_row_scores df ss s Ess Hs) as (HR & HF & HM).
      cbn. auto using fillna_score.
  - destruct df as [|r df]; [reflexivity|]. exfalso.
    destruct (rfm_total (r :: df)) as [t Et']; [discriminate|].
    congruence.
Qed.

(* ------------------------------------------------------------------ *)
(** * The fallback policy of [rfm_score] *)

(** The quantile attempt on a series that holds a value fails exactly when
    its six edges are not pairwise distinct. *)
Lemma qcut_raises_iff (series : list (option Q)) (ascending : bool) :
  dropna series <> [] ->
  (qcut series 5 (score_labels ascending) dup_drop = Raise ValueError <->
   (length (unique Qeq_bool
              (map (quantile (dropna series)) (linspace 0 1 6))) < 6)%nat).
Proof.
  intros Hx. unfold qcut.
  destruct (dropna series) as [|v r] eqn:Ed; [congruence|].
  change (5 + 1)%nat with 6%nat.
  set (edges := map (quantile (v :: r)) (linspace 0 1 6)).
  assert (Hlen : length edges = 6%nat).
  { unfold edges. now rewrite length_map, linspace_length. }
  pose proof (unique_length_le Qeq_bool edges) as Hle.
  unfold bins_to_cuts. rewrite Hlen. cbn [Nat.eqb negb andb].
  rewrite !andb_true_r, andb_false_r.
  replace (negb (length (unique Z.eqb (score_labels ascending))
                 =? length (score_labels ascending))%nat) with false
    by now destruct ascending.
  replace (length (score_labels ascending)) with 5%nat
    by now destruct ascending.
  destruct (length (unique Qeq_bool edges) <? 6)%nat eqn:E.
  - apply Nat.ltb_lt in E.
    replace (5 =? length (unique Qeq_bool edges) - 1)%nat with false
      by (symmetry; apply Nat.eqb_neq; lia).
    simpl. tauto.
  - apply Nat.ltb_ge in E. rewrite Hlen. cbn [Nat.sub Nat.eqb negb].
    split; [discriminate | lia].
Qed.



(** Both paths on concrete series. *)
Example rfm_score_tied :
  rfm_score recency_tied true
  = Ok [Some 5; Some 5; Some 5; Some 5; Some 1]%Z.
Proof. vm_compute. reflexivity. Qed.

Example rfm_score_spread :
  qcut recency_spread 5 [5; 4; 3; 2; 1]%Z dup_drop
  = Ok [Some 5; Some 3; Some 5; Some 4; Some 1; Some 2]%Z /\
  rfm_score recency_spread true
  = Ok [Some 5; Some 3; Some 5; Some 4; Some 1; Some 2]%Z.
Proof. split; vm_compute; reflexivity. Qed.

Example rfm_score_missing :
  option_map (map (fillna 3%Z)) 
    (match rfm_score [Some 7; None; Some 7] false with
     | Ok r => Some r
     | Raise _ => None
     end)
  = Some [3; 3; 3]%Z.
Proof. vm_compute. reflexivity. Qed.

(* ------------------------------------------------------------------ *)
(** * A total revenue of zero *)








(** A sale and a refund that cancel: the shares are [inf] and [-inf]. *)
Example cancelling_refund :
  map (fun row : product_row =>
         (Revenue_Pct row, Cum_Pct row, ABC_Category row))
      (products [ sample_sale 19724 1 "Ana" "Soap" 5;
                  sample_sale 19730 2 "Luis" "Bleach" (-5) ])
  = [(PInf, PInf, "C"); (NInf, NaN, "C")]%string.
Proof. vm_compute. reflexivity. Qed.

(* ------------------------------------------------------------------ *)
(** * Determinism *)




(* ------------------------------------------------------------------ *)
(** * Aggregations partition the frame *)




Lemma groupby_keys {A K : Type} (eqb leb : K -> K -> bool) (key : A -> K)
    (df : list A) :
  map fst (groupby eqb leb key df)
  = sort_values leb (unique eqb (map key df)).
Proof.
  unfold groupby. rewrite map_map. simpl. apply map_id.
Qed.

(** No group is empty, and a group holds the rows of its key only. *)
Lemma groupby_groups {A K : Type} (eqb leb : K -> K -> bool) (key : A -> K)
    (df : list A) (g : K * list A) :
  (forall x y, eqb x y = true <-> x = y) ->
  In g (groupby eqb leb key df) ->
  snd g = filter (fun r => eqb (key r) (fst g)) df /\ snd g <> [].
Proof.
  intros H Hg. unfold groupby in Hg. apply in_map_iff in Hg.
  destruct Hg as (k & <- & Hk). simpl. split; [reflexivity|].
  apply (groupby_keys_In eqb leb key df k H) in Hk.
  apply in_map_iff in Hk. destruct Hk as (r & Er & Hr).
  intros E.
  assert (Hin : In r (filter (fun r => eqb (key r) k) df)).
  { apply filter_In. split; [assumption|]. now apply H. }
  now rewrite E in Hin.
Qed.

Lemma sort_values_desc_sorted {A : Type} (key : A -> Q) (l : list A) :
  StronglySorted (fun a b => key b <= key a)
    (sort_values (fun a b => Qle_bool (key b) (key a)) l).
Proof.
  set (before := fun a b : A => Qle_bool (key b) (key a)).
  assert (Hs : Sorted (fun u v => before u v = true) (sort_values before l)).
  { apply sort_values_sorted. intros a b. unfold before.
    destruct (Qle_bool (key b) (key a)) eqn:E; [now left|].
    right. apply Qle_bool_false_iff in E. apply Qle_bool_iff. lra. }
  apply Sorted_StronglySorted in Hs.
  - induction Hs as [|a r _ IH Ha]; constructor; [assumption|].
    eapply Forall_impl; [|exact Ha]. simpl. intros b.
    unfold before. apply Qle_bool_iff.
  - intros a b c. unfold before. rewrite !Qle_bool_iff. lra.
Qed.

Lemma sort_values_Z_increasing (l : list Z) :
  NoDup l -> StronglySorted Z.lt (sort_values Z.leb l).
Proof.
  intros Hnd.
  assert (Hs : StronglySorted Z.le (sort_values Z.leb l)).
  { assert (H : Sorted (fun u v => Z.leb u v = true) (sort_values Z.leb l)).
    { apply sort_values_sorted. intros a b.
      destruct (Z.leb_spec a b); [now left|]. right. apply Z.leb_le. lia. }
    apply Sorted_StronglySorted in H.
    - induction H as [|a r _ IH Ha]; constructor; [assumption|].
      eapply Forall_impl; [|exact Ha]. simpl. intros b. apply Z.leb_le.
    - intros a b c. rewrite !Z.leb_le. lia. }
  assert (Hnd' : NoDup (sort_values Z.leb l)).
  { eapply Permutation_NoDup; [|exact Hnd].
    apply Permutation_sym, sort_values_perm. }
  induction Hs as [|a r _ IH Ha]; constructor.
  - apply IH. now inversion Hnd'.
  - inversion Hnd' as [|? ? Hnotin _]; subst.
    rewrite Forall_forall in *. intros b Hb.
    specialize (Ha b Hb). assert (a <> b) by (intros ->; contradiction).
    lia.
Qed.

(** X1: the monthly series has one entry per calendar month that occurs in
    the frame and no other, in strictly increasing month order, and its
    values add up to the total sales. *)
Theorem monthly_sales_partition (df : dataframe) :
  StronglySorted Z.lt (map fst (monthly_sales df)) /\
  (forall p : Z,
      In p (map fst (monthly_sales df)) <->
      exists r, In r df /\ to_period_M (Sale_Date r) = p) /\
  (forall p v, In (p, v) (monthly_sales df) ->
      v = Qsum (map Total_Sale
                 (filter (fun r => (to_period_M (Sale_Date r) =? p)%Z) df))) /\
  Qsum (map snd (monthly_sales df)) == total_sales df.
Proof.
  unfold monthly_sales.
  set (key := fun r : sale => to_period_M (Sale_Date r)).
  assert (Hfst : map fst (map (fun g : Z * list sale =>
                                 (fst g, Qsum (map Total_Sale (snd g))))
                              (groupby Z.eqb Z.leb key df))
                 = sort_values Z.leb (unique Z.eqb (map key df))).
  { rewrite map_map. cbn [fst]. apply groupby_keys. }
  split; [|split; [|split]].
  - rewrite Hfst. apply sort_values_Z_increasing, unique_NoDup, Z.eqb_eq.
  - intros p. rewrite Hfst, (groupby_keys_In Z.eqb Z.leb key df p Z.eqb_eq).
    rewrite in_map_iff. split.
    + intros (r & E & Hr). exists r. split; assumption.
    + intros (r & Hr & E). exists r. split; assumption.
  - intros p v H. apply in_map_iff in H. destruct H as (g & E & Hg).
    injection E as <- <-.
    now destruct (groupby_groups Z.eqb Z.leb key df g Z.eqb_eq Hg) as [-> _].
  - rewrite map_map. cbn [snd].
    apply (groupby_sum Z.eqb Z.leb key Total_Sale df Z.eqb_eq).
Qed.

(** ** The product table *)



Lemma firstn_skipn_sorted {A : Type} (R : A -> A -> Prop) (l : list A)
    (n : nat) :
  StronglySorted R l ->
  forall a b, In a (firstn n l) -> In b (skipn n l) -> R a b.
Proof.
  intros Hs. revert n.
  induction Hs as [|x r Hr IH Hx]; intros n a b Ha Hb.
  - destruct n; contradiction.
  - destruct n as [|n]; [contradiction|]. simpl in Ha, Hb.
    destruct Ha as [<-|Ha].
    + rewrite Forall_forall in Hx. apply Hx.
      rewrite <- (firstn_skipn n r). apply in_or_app. now right.
    + now apply (IH n).
Qed.

(** X3: the product table is in order of decreasing revenue, and the ten
    rows kept for the chart are the first ten of it: no product left out has
    a larger revenue than a product kept. *)
Theorem top_products_largest (df : dataframe) :
  StronglySorted (fun a b : product_row => Revenue b <= Revenue a)
                 (products df) /\
  length (top_products (products df)) = Nat.min 10 (length (products df)) /\
  (forall a b : product_row,
      In a (top_products (products df)) ->
      In b (skipn 10 (products df)) ->
      Revenue b <= Revenue a).
Proof.
  assert (Hs : StronglySorted (fun a b : product_row => Revenue b <= Revenue a)
                 (products df)).
  { destruct (products_columns df) as (Eagg & _ & _).
    pose proof (products_agg_sorted df) as H. rewrite <- Eagg in H.
    clear Eagg. induction (products df) as [|x r IH]; [constructor|].
    simpl in H. inversion H as [|? ? Hr Hx]; subst.
    constructor; [now apply IH|]. now rewrite Forall_map in Hx. }
  split; [exact Hs|]. split.
  - apply length_firstn.
  - intros a b Ha Hb.
    exact (firstn_skipn_sorted _ _ 10 Hs a b Ha Hb).
Qed.

(** ** The customer table *)

Lemma rfm_agg_row_sales (df : dataframe) (a : rfm_agg_row) :
  In a (rfm_agg df) ->
  sales_of (agg_Customer a) df <> [] /\
  agg_Recency a = recency_of (reference_date df)
                    (map Sale_Date (sales_of (agg_Customer a) df)) /\
  agg_Frequency a = Z.of_nat (length (sales_of (agg_Customer a) df)) /\
  agg_Monetary a = Qsum (map Total_Sale (sales_of (agg_Customer a) df)).
Proof.
  unfold rfm_agg. intros H. apply in_map_iff in H.
  destruct H as (g & <- & Hg). simpl.
  destruct (groupby_groups _ _ _ _ g String.eqb_eq Hg) as [E Hne].
  unfold sales_of. rewrite <- E. auto.
Qed.


(** The final table is a rearrangement of the filled metric rows. *)
Lemma rfm_table_perm (df : dataframe) (t : list rfm_row) :
  rfm df = Ok t ->
  exists ss, rfm_scored df = Ok ss /\
             map metrics ss = rfm_agg df /\
             Permutation t (map fill_and_segment ss).
Proof.
  unfold rfm. destruct (rfm_scored df) as [ss|] eqn:E; [|discriminate].
  cbn [bind]. intros H. injection H as <-. exists ss.
  destruct (rfm_scored_columns df ss E) as (Em & _).
  repeat split; [assumption|]. apply sort_values_perm.
Qed.

Lemma rfm_row_of_customer (df : dataframe) (t : list rfm_row) (r : sale) :
  rfm df = Ok t -> In r df ->
  exists row, In row t /\ rfm_Customer row = Customer r.
Proof.
  intros Et Hr.
  destruct (rfm_table_perm df t Et) as (ss & _ & Em & Hperm).
  destruct (rfm_agg_customers df r Hr) as (a & Ha & Ea).
  rewrite <- Em in Ha. apply in_map_iff in Ha. destruct Ha as (s & Es & Hs).
  exists (fill_and_segment s). split.
  - apply (Permutation_in _ (Permutation_sym Hperm)). now apply in_map.
  - cbn [fill_and_segment rfm_Customer]. now rewrite Es.
Qed.



(** X5: the customer table is in order of decreasing Monetary, and the ten
    rows kept for the chart are the first ten of it: no customer left out
    has spent more than a customer kept. *)
Theorem top_customers_largest (df : dataframe) (t : list rfm_row) :
  rfm df = Ok t ->
  StronglySorted (fun a b => Monetary b <= Monetary a) t /\
  length (top_customers t) = Nat.min 10 (length t) /\
  (forall a b, In a (top_customers t) -> In b (skipn 10 t) ->
               Monetary b <= Monetary a).
Proof.
  intros Et.
  assert (Hs : StronglySorted (fun a b => Monetary b <= Monetary a) t).
  { unfold rfm in Et. destruct (rfm_scored df) as [ss|]; [|discriminate].
    cbn [bind] in Et. injection Et as <-.
    apply (sort_values_desc_sorted Monetary). }
  split; [exact Hs|]. split.
  - apply length_firstn.
  - intros a b Ha Hb. exact (firstn_skipn_sorted _ _ 10 Hs a b Ha Hb).
Qed.

Lemma top_customers_largest_witness :
  exists t, rfm df_shop = Ok t /\
            StronglySorted (fun a b => Monetary b <= Monetary a) t.
Proof.
  destruct (rfm df_shop) as [t|e] eqn:E.
  - exists t. split; [reflexivity|].
    exact (proj1 (top_customers_largest df_shop t E)).
  - exfalso. vm_compute in E. discriminate.
Defined.

(** ** Recency in closed form *)

Lemma ts_max_unique (l : list Z) (m : Z) :
  In m l -> Forall (fun y => (y <= m)%Z) l -> ts_max l = Some m.
Proof.
  intros Hin Hle.
  assert (Hne : l <> []) by (destruct l; [contradiction | discriminate]).
  destruct (ts_max_some l Hne) as (m' & E & Hin' & Hle').
  rewrite E. f_equal.
  rewrite Forall_forall in Hle, Hle'.
  specialize (Hle m' Hin'). specialize (Hle' m Hin). lia.
Qed.

(** X6: the recency of a customer is one day more than the whole days
    between that customer's latest sale and the latest sale of the frame.
    So a customer who bought at the latest sale date has recency 1. *)
Theorem recency_closed_form (df : dataframe) (t : list rfm_row) :
  rfm df = Ok t ->
  exists latest : Z,
    ts_max (map Sale_Date df) = Some latest /\
    (forall row, In row t ->
       exists own : Z,
         ts_max (map Sale_Date (sales_of (rfm_Customer row) df)) = Some own /\
         (own <= latest)%Z /\
         Recency row = (1 + (latest - own) / ns_per_day)%Z) /\
    (forall r, In r df -> Sale_Date r = latest ->
       exists row, In row t /\ rfm_Customer row = Customer r /\
                   Recency row = 1%Z).
Proof.
  intros Et.
  destruct (rfm_table_perm df t Et) as (ss & Ess & Em & Hperm).
  assert (Hdf : df <> []).
  { intros ->. vm_compute in Et. discriminate. }
  assert (Hd : map Sale_Date df <> [])
    by (destruct df; [congruence | discriminate]).
  destruct (ts_max_some _ Hd) as (latest & EM & HinM & HleM).
  exists latest. split; [exact EM|].
  assert (Hrows : forall row, In row t ->
            exists own : Z,
              ts_max (map Sale_Date (sales_of (rfm_Customer row) df))
              = Some own /\
              (own <= latest)%Z /\
              Recency row = (1 + (latest - own) / ns_per_day)%Z).
  { intros row Hrow.
    apply (Permutation_in _ Hperm) in Hrow. apply in_map_iff in Hrow.
    destruct Hrow as (s & <- & Hs).
    cbn [fill_and_segment rfm_Customer Recency].
    assert (Ha : In (metrics s) (rfm_agg df)).
    { rewrite <- Em. now apply in_map. }
    destruct (rfm_agg_row_sales df _ Ha) as (Hne & ER & _).
    set (g := sales_of (agg_Customer s) df) in *.
    assert (Hg : map Sale_Date g <> [])
      by (destruct g; [congruence | discriminate]).
    destruct (ts_max_some _ Hg) as (own & Eo & Hino & _).
    exists own. split; [exact Eo|].
    assert (Hle : (own <= latest)%Z).
    { rewrite Forall_forall in HleM. apply HleM.
      apply in_map_iff in Hino. destruct Hino as (r & <- & Hr).
      apply in_map. unfold g, sales_of in Hr. now apply filter_In in Hr. }
    split; [exact Hle|].
    rewrite ER. unfold recency_of, reference_date. rewrite EM, Eo.
    cbn [option_map fillna]. unfold days, Timedelta_days.
    replace (latest + 1 * ns_per_day - own)%Z
      with ((latest - own) + 1 * ns_per_day)%Z by lia.
    rewrite Z.div_add by (unfold ns_per_day; lia). lia. }
  split; [exact Hrows|].
  intros r Hr Edate.
  destruct (rfm_row_of_customer df t r Et Hr) as (row & Hrow & Ec).
  exists row. split; [exact Hrow|]. split; [exact Ec|].
  destruct (Hrows row Hrow) as (own & Eo & Hle & ->).
  assert (Eown : own = latest).
  { assert (E' : ts_max (map Sale_Date (sales_of (rfm_Customer row) df))
                 = Some latest).
    { apply ts_max_unique.
      - apply in_map_iff. exists r. split; [assumption|].
        unfold sales_of. apply filter_In. split; [assumption|].
        rewrite Ec. apply String.eqb_refl.
      - apply Forall_map, Forall_forall. intros r' Hr'.
        unfold sales_of in Hr'. apply filter_In in Hr'.
        rewrite Forall_forall in HleM. apply HleM, in_map. tauto. }
    congruence. }
  subst own. rewrite Z.sub_diag. reflexivity.
Qed.

Lemma recency_closed_form_witness :
  exists t latest,
    rfm df_shop = Ok t /\
    ts_max (map Sale_Date df_shop) = Some latest /\
    (forall r, In r df_shop -> Sale_Date r = latest ->
       exists row, In row t /\ rfm_Customer row = Customer r /\
                   Recency row = 1%Z).
Proof.
  destruct (rfm df_shop) as [t|e] eqn:E.
  - destruct (recency_closed_form df_shop t E) as (latest & H1 & _ & H3).
    exists t, latest. repeat split; assumption.
  - exfalso. vm_compute in E. discriminate.
Defined.

(* ------------------------------------------------------------------ *)
(** * The shape of the Pareto curve *)












(* ------------------------------------------------------------------ *)
(** * The regions of the segments *)

(** X9: each segment is a region of the (R, F, M) space, whatever the
    values: "Champions" is R>=4, F>=4, M>=4; "Loyal" is R<4, F>=4, M>=4;
    "Potential" is R>=4, F<=2; "Lost" is R<=2, F<=2; "At Risk" is R<=2,
    F>=3 unless F>=4 and M>=4; the rest is "Occasional".  M matters only
    for telling Champions and Loyal from the rest. *)
Theorem segment_regions (r f m : Z) :
  let seg := segment_customer r f m in
  let loyal_core := (4 <= f /\ 4 <= m)%Z in
  (seg = "Champions"%string <-> (4 <= r)%Z /\ loyal_core) /\
  (seg = "Loyal"%string <-> (r < 4)%Z /\ loyal_core) /\
  (seg = "Potential"%string <-> (4 <= r /\ f <= 2)%Z) /\
  (seg = "At Risk"%string <-> (r <= 2 /\ 3 <= f)%Z /\ ~ loyal_core) /\
  (seg = "Lost"%string <-> (r <= 2 /\ f <= 2)%Z) /\
  (seg = "Occasional"%string <->
     (3 <= r)%Z /\ ~ loyal_core /\ ~ (4 <= r /\ f <= 2)%Z).
Proof.
  cbv zeta. unfold segment_customer. rewrite !Z.geb_leb.
  destruct (Z.leb_spec 4 r); destruct (Z.leb_spec 4 f);
    destruct (Z.leb_spec 4 m); destruct (Z.leb_spec f 2);
    destruct (Z.leb_spec r 2); destruct (Z.leb_spec 3 f);
    cbn [andb];
    repeat split; intros; try discriminate; try reflexivity; try lia.
Qed.

(* ------------------------------------------------------------------ *)
(** * When [rfm_score] fails *)

Lemma nbins_to_bins_empty (x : list (option Q)) (n : nat) :
  dropna x = [] -> nbins_to_bins x n = Raise ValueError.
Proof.
  intros E. unfold nbins_to_bins. rewrite E. now destruct (n <? 1)%nat.
Qed.

(** X10: [rfm_score] fails exactly on a series that holds no value (an
    empty series, or one whose cells are all missing); it then raises
    ValueError, from the fallback.  On every other series it returns one
    score cell per input cell. *)
Theorem rfm_score_fails_iff_no_value
    (series : list (option Q)) (ascending : bool) :
  (dropna series = [] ->
     rfm_score series ascending = Raise ValueError) /\
  (dropna series <> [] ->
     exists r, rfm_score series ascending = Ok r /\
               length r = length series).
Proof.
  split.
  - intros E. unfold rfm_score, try_except_ValueError, qcut, cut.
    rewrite E, (nbins_to_bins_empty series 5 E).
    now destruct ascending.
  - intros Hne. destruct (rfm_score_total series ascending Hne) as [r Er].
    exists r. split; [exact Er|]. now apply rfm_score_ok in Er.
Qed.

Lemma rfm_score_fails_iff_no_value_witness :
  dropna recency_tied <> [] /\
  exists r, rfm_score recency_tied true = Ok r /\
            length r = length recency_tied.
Proof.
  assert (H : dropna recency_tied <> []) by discriminate.
  split; [exact H|].
  exact (proj2 (rfm_score_fails_iff_no_value recency_tied true) H).
Defined.

(* ------------------------------------------------------------------ *)
(** * Every present value gets a bin *)

Lemma bins_to_cuts_cells (x : list (option Q)) (bins : list Q)
    (labels : list Z) (il : bool) (d : duplicates) (r : list (option Z)) :
  bins_to_cuts x bins labels il d = Ok r ->
  labels <> [] -> length bins = S (length labels) ->
  r = map (cell_score bins labels il) x.
Proof.
  intros H Hl Hb. unfold bins_to_cuts in H.
  set (u := unique Qeq_bool bins) in *.
  destruct ((length u <? length bins)%nat && negb (length bins =? 2)%nat)
    eqn:Es.
  - (* fewer edges than labels need: no result *)
    exfalso. apply andb_true_iff in Es. destruct Es as [Es _].
    apply Nat.ltb_lt in Es.
    destruct d; cbn [andb] in H; [discriminate|].
    destruct (negb (length (unique Z.eqb labels) =? length labels)%nat);
      [discriminate|].
    destruct (length labels =? length u - 1)%nat eqn:El;
      cbn [negb] in H; [|discriminate].
    apply Nat.eqb_eq in El.
    destruct labels; [congruence|]. simpl in *. lia.
  - cbn [andb] in H.
    destruct (negb (length (unique Z.eqb labels) =? length labels)%nat);
      [discriminate|].
    destruct (negb (length labels =? length bins - 1)%nat); [discriminate|].
    injection H as <-. rewrite map_map. reflexivity.
Qed.

Lemma searchsorted_left_lt (bins : list Q) (q : Q) :
  (exists b, In b bins /\ q <= b) ->
  (searchsorted_left bins q < length bins)%nat.
Proof.
  induction bins as [|b0 bs IH]; intros (b & Hb & Hle); [contradiction|].
  simpl. destruct (Qlt_bool b0 q) eqn:E; [|lia].
  apply Qlt_bool_iff in E. destruct Hb as [->|Hb]; [lra|].
  apply -> Nat.succ_lt_mono. apply IH. now exists b.
Qed.

Lemma searchsorted_left_pos (bins : list Q) (q : Q) :
  bins <> [] -> hd 0 bins < q -> (1 <= searchsorted_left bins q)%nat.
Proof.
  destruct bins as [|b0 bs]; [congruence|]. simpl. intros _ H.
  apply Qlt_bool_iff in H. rewrite H. lia.
Qed.

(** A value that lies within the edges gets a label. *)
Lemma cell_score_assigned (bins : list Q) (labels : list Z) (il : bool)
    (q : Q) :
  labels <> [] -> length bins = S (length labels) ->
  (if il then hd 0 bins <= q else hd 0 bins < q) ->
  (exists b, In b bins /\ q <= b) ->
  exists z, cell_score bins labels il (Some q) = Some z.
Proof.
  intros Hl Hb Hlow Hhigh. unfold cell_score.
  set (i := if il && Qeq_bool q (hd 0 bins)
            then 1%nat else searchsorted_left bins q).
  assert (Hi : (1 <= i < length bins)%nat).
  { unfold i. destruct (il && Qeq_bool q (hd 0 bins)) eqn:E.
    - destruct labels; [congruence|]. simpl in Hb. lia.
    - split; [|now apply searchsorted_left_lt].
      apply searchsorted_left_pos.
      + destruct bins; [discriminate | congruence].
      + destruct il; [|assumption]. cbn [andb] in E.
        apply Qeq_bool_false_iff in E.
        apply Qle_lteq in Hlow. destruct Hlow as [H|H]; [assumption|].
        exfalso. apply E. now symmetry. }
  replace (i =? length bins)%nat with false
    by (symmetry; apply Nat.eqb_neq; lia).
  unfold take_nd.
  replace (Z.of_nat i - 1 =? -1)%Z with false
    by (symmetry; apply Z.eqb_neq; lia).
  destruct (nth_error labels (Z.to_nat (Z.of_nat i - 1))) as [z|] eqn:En;
    [now exists z|].
  apply nth_error_None in En. lia.
Qed.

Lemma cell_score_missing (bins : list Q) (labels : list Z) (il : bool) :
  cell_score bins labels il None = None.
Proof. reflexivity. Qed.

(** *** The quantile edges span the values *)

Lemma sort_values_Q_sorted (l : list Q) :
  StronglySorted Qle (sort_values Qle_bool l).
Proof.
  assert (Hs : Sorted (fun u v => Qle_bool u v = true)
                      (sort_values Qle_bool l)).
  { apply sort_values_sorted. intros a b.
    destruct (Qle_bool a b) eqn:E; [now left|].
    right. apply Qle_bool_false_iff in E. apply Qle_bool_iff. lra. }
  apply Sorted_StronglySorted in Hs.
  - induction Hs as [|a r _ IH Ha]; constructor; [assumption|].
    eapply Forall_impl; [|exact Ha]. simpl. intros b. apply Qle_bool_iff.
  - intros a b c. rewrite !Qle_bool_iff. lra.
Qed.

Lemma sorted_first_least (s : list Q) (v : Q) :
  StronglySorted Qle s -> In v s -> nth 0 s 0 <= v.
Proof.
  intros Hs Hv. destruct s as [|x r]; [contradiction|]. simpl.
  inversion Hs as [|? ? _ Hx]; subst.
  destruct Hv as [<-|Hv]; [lra|].
  rewrite Forall_forall in Hx. now apply Hx.
Qed.

Lemma nth_last_cons (x : Q) (r : list Q) :
  r <> [] -> nth (length (x :: r) - 1) (x :: r) 0 = nth (length r - 1) r 0.
Proof.
  destruct r as [|y r']; [congruence|]. intros _.
  cbn [length]. rewrite !Nat.sub_succ, !Nat.sub_0_r. reflexivity.
Qed.

Lemma sorted_last_greatest (s : list Q) (v : Q) :
  StronglySorted Qle s -> In v s -> v <= nth (length s - 1) s 0.
Proof.
  intros Hs. revert v.
  induction Hs as [|x r Hr IH Hx]; intros v Hv; [contradiction|].
  destruct r as [|y r'].
  - destruct Hv as [<-|[]]. simpl. lra.
  - rewrite nth_last_cons by discriminate.
    destruct Hv as [<-|Hv]; [|now apply IH].
    rewrite Forall_forall in Hx.
    apply Qle_trans with y; [apply Hx; now left|].
    apply IH. now left.
Qed.

Lemma quantile_zero (vals : list Q) (q : Q) :
  q == 0 -> quantile vals q == nth 0 (sort_values Qle_bool vals) 0.
Proof.
  intros Hq. unfold quantile.
  set (v := sort_values Qle_bool vals).
  set (h := q * inject_Z (Z.of_nat (length v - 1))).
  assert (Hh : h == 0) by (unfold h; rewrite Hq; ring).
  rewrite (Qfloor_comp h 0 Hh). change (Qfloor 0) with 0%Z.
  change (Z.to_nat 0) with 0%nat. change (inject_Z (Z.of_nat 0)) with 0.
  rewrite Hh. ring.
Qed.

Lemma quantile_one (vals : list Q) (q : Q) :
  q == 1 ->
  quantile vals q
  == nth (length (sort_values Qle_bool vals) - 1)
         (sort_values Qle_bool vals) 0.
Proof.
  intros Hq. unfold quantile.
  set (v := sort_values Qle_bool vals).
  set (n1 := (length v - 1)%nat).
  set (h := q * inject_Z (Z.of_nat n1)).
  assert (Hh : h == inject_Z (Z.of_nat n1)) by (unfold h; rewrite Hq; ring).
  rewrite (Qfloor_comp h _ Hh), Qfloor_Z, Nat2Z.id.
  rewrite Hh. ring.
Qed.

(** The six quantile edges start at the least value and reach the
    greatest. *)
Lemma quantile_edges_span (vals : list Q) (v : Q) :
  In v vals ->
  hd 0 (map (quantile vals) (linspace 0 1 6)) <= v /\
  exists b, In b (map (quantile vals) (linspace 0 1 6)) /\ v <= b.
Proof.
  intros Hv.
  pose proof (sort_values_Q_sorted vals) as Hs.
  assert (Hv' : In v (sort_values Qle_bool vals)) by now apply sort_values_In.
  unfold linspace. cbn [seq map hd]. split.
  - rewrite quantile_zero by reflexivity. now apply sorted_first_least.
  - eexists. split.
    + do 5 right. left. reflexivity.
    + rewrite quantile_one by reflexivity. now apply sorted_last_greatest.
Qed.

Lemma In_dropna {A : Type} (l : list (option A)) (a : A) :
  In (Some a) l <-> In a (dropna l).
Proof.
  induction l as [|[b|] r IH]; simpl; [tauto| |].
  - rewrite <- IH. split; intros [H|H]; auto; left; congruence.
  - rewrite <- IH. split; [intros [H|H]; [discriminate | assumption] | auto].
Qed.

Lemma cells_all_or_nothing (g : option Q -> option Z) (x : list (option Q)) :
  g None = None ->
  (forall q, In (Some q) x -> exists z, g (Some q) = Some z) ->
  Forall2 (fun cell score => cell = None <-> score = None) x (map g x).
Proof.
  intros HN HS. induction x as [|c r IH]; simpl; constructor.
  - destruct c as [q|].
    + destruct (HS q) as [z Ez]; [now left|]. rewrite Ez.
      split; discriminate.
    + rewrite HN. tauto.
  - apply IH. intros q Hq. apply HS. now right.
Qed.

(** *** The equal-width edges span the values *)

Lemma fold_Qmin'_least (r : list Q) (v y : Q) :
  In y (v :: r) -> fold_left Qmin' r v <= y.
Proof.
  revert v. induction r as [|x r IH]; intros v Hy; simpl.
  - destruct Hy as [<-|[]]. lra.
  - assert (Hm : Qmin' v x <= v /\ Qmin' v x <= x).
    { unfold Qmin'. destruct (Qle_bool v x) eqn:E.
      - apply Qle_bool_iff in E. lra.
      - apply Qle_bool_false_iff in E. lra. }
    destruct Hy as [<-|[<-|Hy]].
    + pose proof (fold_Qmin'_le r (Qmin' v x)). lra.
    + pose proof (fold_Qmin'_le r (Qmin' v x)). lra.
    + apply IH. now right.
Qed.

Lemma fold_Qmax'_greatest (r : list Q) (v y : Q) :
  In y (v :: r) -> y <= fold_left Qmax' r v.
Proof.
  revert v. induction r as [|x r IH]; intros v Hy; simpl.
  - destruct Hy as [<-|[]]. lra.
  - assert (Hm : v <= Qmax' v x /\ x <= Qmax' v x).
    { unfold Qmax'. destruct (Qle_bool v x) eqn:E.
      - apply Qle_bool_iff in E. lra.
      - apply Qle_bool_false_iff in E. lra. }
    destruct Hy as [<-|[<-|Hy]].
    + pose proof (fold_Qmax'_ge r (Qmax' v x)). lra.
    + pose proof (fold_Qmax'_ge r (Qmax' v x)). lra.
    + apply IH. now right.
Qed.

Lemma linspace_hd (a b : Q) (n : nat) : hd 0 (linspace a b (S n)) == a.
Proof.
  unfold linspace. cbn [seq map hd].
  change (inject_Z (Z.of_nat 0)) with 0. ring.
Qed.

Lemma linspace_end (a b : Q) (n : nat) :
  (1 <= n)%nat ->
  exists e, In e (linspace a b (S n)) /\ e == b /\
            (forall b0 bs, linspace a b (S n) = b0 :: bs -> In e bs).
Proof.
  intros Hn. unfold linspace.
  set (step := (b - a) / inject_Z (Z.of_nat (S n - 1))).
  exists (a + inject_Z (Z.of_nat n) * step).
  assert (He : a + inject_Z (Z.of_nat n) * step == b).
  { unfold step. rewrite Nat.sub_succ, Nat.sub_0_r. field.
    change 0 with (inject_Z 0). rewrite inject_Z_injective. lia. }
  split; [|split; [exact He|]].
  - apply (in_map (fun i => a + inject_Z (Z.of_nat i) * step)).
    apply in_seq. lia.
  - intros b0 bs E. cbn [seq map] in E. injection E as _ <-.
    apply (in_map (fun i => a + inject_Z (Z.of_nat i) * step)).
    apply in_seq. lia.
Qed.

Lemma nbins_to_bins_span (x : list (option Q)) (n : nat) (bins : list Q) :
  nbins_to_bins x n = Ok bins -> (1 <= n)%nat ->
  forall q, In q (dropna x) ->
    hd 0 bins < q /\ exists b, In b bins /\ q <= b.
Proof.
  intros H Hn q Hq. unfold nbins_to_bins in H.
  destruct (n <? 1)%nat; [discriminate|].
  destruct (dropna x) as [|v r]; [contradiction|].
  pose proof (fold_Qmin'_least r v q Hq) as Hmin.
  pose proof (fold_Qmax'_greatest r v q Hq) as Hmax.
  set (mn := fold_left Qmin' r v) in *. set (mx := fold_left Qmax' r v) in *.
  rewrite Nat.add_1_r in H.
  destruct (Qeq_bool mn mx) eqn:E.
  - injection H as <-.
    pose proof (widen_positive mn). pose proof (widen_positive mx).
    split.
    + rewrite linspace_hd. lra.
    + destruct (linspace_end
                  (mn - (if negb (Qeq_bool mn 0)
                         then (1 # 1000) * Qabs mn else 1 # 1000))
                  (mx + (if negb (Qeq_bool mx 0)
                         then (1 # 1000) * Qabs mx else 1 # 1000))
                  n Hn) as (e & He & Ee & _).
      exists e. split; [exact He|]. lra.
  - apply Qeq_bool_false_iff in E.
    assert (Hlt : mn < mx) by lra.
    pose proof (linspace_hd mn mx n) as Hhd.
    destruct (linspace_end mn mx n Hn) as (e & _ & Ee & Hbs).
    destruct (linspace mn mx (S n)) as [|b0 bs] eqn:El.
    { apply (f_equal (@length Q)) in El. rewrite linspace_length in El.
      discriminate. }
    injection H as <-. cbn [hd] in *. split.
    + nra.
    + exists e. split; [right; now apply (Hbs b0 bs)|]. lra.
Qed.

Lemma score_labels_shape (ascending : bool) :
  score_labels ascending <> [] /\ length (score_labels ascending) = 5%nat.
Proof. destruct ascending; split; (discriminate || reflexivity). Qed.

(** How [rfm_score] obtains its result: by scoring each cell against one
    list of six edges, with the lowest edge included on the quantile path
    only. *)
Lemma rfm_score_cells (series : list (option Q)) (ascending : bool)
    (r : list (option Z)) :
  rfm_score series ascending = Ok r ->
  exists bins il,
    r = map (cell_score bins (score_labels ascending) il) series /\
    length bins = 6%nat /\
    forall q, In (Some q) series ->
      (if il then hd 0 bins <= q else hd 0 bins < q) /\
      exists b, In b bins /\ q <= b.
Proof.
  intros H. destruct (score_labels_shape ascending) as [Hl Hlen].
  unfold rfm_score, try_except_ValueError in H.
  destruct (qcut series 5 (score_labels ascending) dup_drop) as [r'|e] eqn:Eq.
  - injection H as <-. unfold qcut in Eq.
    destruct (dropna series) as [|v vs] eqn:Ed.
    { exfalso. rewrite Hlen in Eq.
      destruct (negb (length (unique Z.eqb (score_labels ascending)) =? 5)%nat);
        discriminate. }
    change (5 + 1)%nat with 6%nat in Eq.
    set (edges := map (quantile (v :: vs)) (linspace 0 1 6)) in *.
    assert (He : length edges = 6%nat).
    { unfold edges. now rewrite length_map, linspace_length. }
    exists edges, true. split; [|split; [exact He|]].
    + apply (bins_to_cuts_cells _ _ _ _ _ _ Eq Hl). now rewrite He, Hlen.
    + intros q Hq. apply In_dropna in Hq. rewrite Ed in Hq.
      now apply quantile_edges_span.
  - apply qcut_raises in Eq. subst e. unfold cut in H.
    destruct (nbins_to_bins series 5) as [bins|] eqn:Eb; [|discriminate].
    cbn [bind] in H.
    assert (Hne : dropna series <> []).
    { intros E. rewrite (nbins_to_bins_empty series 5 E) in Eb.
      discriminate. }
    destruct (nbins_to_bins_ok series 5 Hne ltac:(lia))
      as (bins' & Eb' & Hb & _).
    assert (bins' = bins) by congruence. subst bins'.
    exists bins, false. split; [|split; [exact Hb|]].
    + apply (bins_to_cuts_cells _ _ _ _ _ _ H Hl). now rewrite Hb, Hlen.
    + intros q Hq. apply In_dropna in Hq.
      apply (nbins_to_bins_span series 5 bins Eb ltac:(lia) q Hq).
Qed.

(** X11: in the result of [rfm_score] a score is missing exactly where the
    input value is missing: every value that is present falls in one of the
    five bins, on the quantile path as on the equal-width path. *)
Theorem rfm_score_assigns_every_value
    (series : list (option Q)) (ascending : bool) (r : list (option Z)) :
  rfm_score series ascending = Ok r ->
  Forall2 (fun cell score => cell = None <-> score = None) series r.
Proof.
  intros H.
  destruct (rfm_score_cells series ascending r H) as (bins & il & -> & Hb & Hs).
  destruct (score_labels_shape ascending) as [Hl Hlen].
  apply cells_all_or_nothing; [reflexivity|].
  intros q Hq. destruct (Hs q Hq) as [Hlow Hhigh].
  apply cell_score_assigned; try assumption. now rewrite Hb, Hlen.
Qed.

Lemma rfm_score_assigns_every_value_witness :
  exists r,
    rfm_score [Some 7; None; Some 7] false = Ok r /\
    Forall2 (fun cell score => cell = None <-> score = None)
            [Some 7; None; Some 7] r.
Proof.
  destruct (rfm_score [Some 7; None; Some 7] false) as [r|e] eqn:E.
  - exists r. split; [reflexivity|].
    exact (rfm_score_assigns_every_value _ false r E).
  - exfalso. vm_compute in E. discriminate.
Defined.


(* ------------------------------------------------------------------ *)
(** * Scores follow the metrics *)

Lemma searchsorted_left_monotone (bins : list Q) (q q' : Q) :
  q <= q' -> (searchsorted_left bins q <= searchsorted_left bins q')%nat.
Proof.
  intros Hle. induction bins as [|b bs IH]; simpl; [lia|].
  destruct (Qlt_bool b q) eqn:E; [|lia].
  apply Qlt_bool_iff in E.
  replace (Qlt_bool b q') with true
    by (symmetry; apply Qlt_bool_iff; lra).
  lia.
Qed.

(** A larger value never falls in an earlier bin: with the labels
    [5,4,3,2,1] its score is not higher, with [1,2,3,4,5] not lower. *)
Lemma cell_score_monotone (bins : list Q) (ascending il : bool)
    (q q' : Q) (z z' : Z) :
  length bins = 6%nat ->
  (if il then hd 0 bins <= q else hd 0 bins < q) ->
  (exists b, In b bins /\ q' <= b) ->
  q <= q' ->
  cell_score bins (score_labels ascending) il (Some q) = Some z ->
  cell_score bins (score_labels ascending) il (Some q') = Some z' ->
  if ascending then (z' <= z)%Z else (z <= z')%Z.
Proof.
  intros Hb Hlow Hhigh Hle. unfold cell_score.
  set (i := if il && Qeq_bool q (hd 0 bins)
            then 1%nat else searchsorted_left bins q).
  set (i' := if il && Qeq_bool q' (hd 0 bins)
             then 1%nat else searchsorted_left bins q').
  assert (Hne : bins <> []) by (destruct bins; [discriminate | congruence]).
  assert (Hi : (1 <= i)%nat).
  { unfold i. destruct (il && Qeq_bool q (hd 0 bins)) eqn:E; [lia|].
    apply searchsorted_left_pos; [assumption|].
    destruct il; [|assumption]. cbn [andb] in E.
    apply Qeq_bool_false_iff in E.
    apply Qle_lteq in Hlow. destruct Hlow as [H|H]; [assumption|].
    exfalso. apply E. now symmetry. }
  assert (Hi' : (i' < 6)%nat).
  { unfold i'. destruct (il && Qeq_bool q' (hd 0 bins)); [lia|].
    rewrite <- Hb. now apply searchsorted_left_lt. }
  assert (Hii : (i <= i')%nat).
  { unfold i, i'.
    destruct (il && Qeq_bool q (hd 0 bins)) eqn:E;
      destruct (il && Qeq_bool q' (hd 0 bins)) eqn:E'.
    - lia.
    - apply searchsorted_left_pos; [assumption|].
      apply andb_true_iff in E. destruct E as [-> E].
      apply Qeq_bool_iff in E. cbn [andb] in E'.
      apply Qeq_bool_false_iff in E'.
      apply Qle_lteq in Hle. destruct Hle as [H|H]; [lra|].
      exfalso. apply E'. rewrite <- H. exact E.
    - exfalso. apply andb_true_iff in E'. destruct E' as [-> E'].
      apply Qeq_bool_iff in E'. cbn [andb] in E.
      apply Qeq_bool_false_iff in E. apply E. lra.
    - now apply searchsorted_left_monotone. }
  rewrite Hb. clearbody i i'.
  replace (i =? 6)%nat with false by (symmetry; apply Nat.eqb_neq; lia).
  replace (i' =? 6)%nat with false by (symmetry; apply Nat.eqb_neq; lia).
  assert (Ci : (i = 1 \/ i = 2 \/ i = 3 \/ i = 4 \/ i = 5)%nat) by lia.
  assert (Ci' : (i' = 1 \/ i' = 2 \/ i' = 3 \/ i' = 4 \/ i' = 5)%nat) by lia.
  destruct ascending;
    destruct Ci as [->|[->|[->|[->| ->]]]];
    destruct Ci' as [->|[->|[->|[->| ->]]]];
    try lia; cbn; intros E1 E2; injection E1 as <-; injection E2 as <-; lia.
Qed.

(** X13: [rfm_score] is monotone.  Of two values of the series, the larger
    never gets the higher score when the labels are [5,4,3,2,1]
    (ascending), and never the lower score when they are [1,2,3,4,5]. *)
Theorem rfm_score_monotone (series : list (option Q)) (ascending : bool)
    (r : list (option Z)) :
  rfm_score series ascending = Ok r ->
  forall (i j : nat) (q q' : Q) (z z' : Z),
    nth_error series i = Some (Some q) ->
    nth_error series j = Some (Some q') ->
    nth_error r i = Some (Some z) ->
    nth_error r j = Some (Some z') ->
    q <= q' ->
    if ascending then (z' <= z)%Z else (z <= z')%Z.
Proof.
  intros H i j q q' z z' Hi Hj Hri Hrj Hle.
  destruct (rfm_score_cells series ascending r H) as (bins & il & -> & Hb & Hs).
  rewrite nth_error_map, Hi in Hri. rewrite nth_error_map, Hj in Hrj.
  cbn [option_map] in Hri, Hrj. injection Hri as Hri. injection Hrj as Hrj.
  apply nth_error_In in Hi, Hj.
  destruct (Hs q Hi) as [Hlow _]. destruct (Hs q' Hj) as [_ Hhigh].
  exact (cell_score_monotone bins ascending il q q' z z' Hb Hlow Hhigh Hle
           Hri Hrj).
Qed.

Lemma rfm_score_monotone_witness :
  exists r,
    rfm_score recency_spread true = Ok r /\
    forall (z z' : Z),
      nth_error r 0 = Some (Some z) -> nth_error r 1 = Some (Some z') ->
      (z' <= z)%Z.
Proof.
  destruct (rfm_score recency_spread true) as [r|e] eqn:E.
  - exists r. split; [reflexivity|]. intros z z' Hz Hz'.
    apply (rfm_score_monotone recency_spread true r E 0 1 3 10 z z');
      try assumption; try reflexivity.
    discriminate.
  - exfalso. vm_compute in E. discriminate.
Defined.

(** ** Ranks *)

Lemma rank_first_from_nth (earlier all l : list Q) (i : nat) (v : Q) :
  nth_error l i = Some v ->
  exists n : nat,
    nth_error (rank_first_from earlier all l) i
    = Some (inject_Z (Z.of_nat n)) /\
    n = (1 + length (filter (fun w => Qlt_bool w v) all)
         + (length (filter (Qeq_bool v) (firstn i l))
            + length (filter (Qeq_bool v) earlier)))%nat.
Proof.
  revert earlier i. induction l as [|x r IH]; intros earlier i Hi.
  - destruct i; discriminate.
  - destruct i as [|i].
    + injection Hi as ->. eexists. split; [reflexivity|]. simpl. lia.
    + simpl in Hi. destruct (IH (x :: earlier) i Hi) as (n & En & Hn).
      exists n. split; [exact En|]. rewrite Hn. simpl.
      destruct (Qeq_bool v x); simpl; lia.
Qed.

Lemma filter_count_prefix {A : Type} (p : A -> bool) (l : list A) (i : nat)
    (v : A) :
  nth_error l i = Some v -> p v = true ->
  (length (filter p (firstn i l)) + 1 <= length (filter p l))%nat.
Proof.
  revert i. induction l as [|x r IH]; intros i Hi Hp.
  - destruct i; discriminate.
  - destruct i as [|i].
    + injection Hi as ->. simpl. rewrite Hp. simpl. lia.
    + simpl in Hi. specialize (IH i Hi Hp). simpl.
      destruct (p x); simpl; lia.
Qed.

Lemma filter_count_disjoint {A : Type} (p q r : A -> bool) (l : list A) :
  (forall x, p x = true -> r x = true) ->
  (forall x, q x = true -> r x = true) ->
  (forall x, p x = true -> q x = false) ->
  (length (filter p l) + length (filter q l) <= length (filter r l))%nat.
Proof.
  intros Hp Hq Hd. induction l as [|x l IH]; simpl; [lia|].
  destruct (p x) eqn:Ep; destruct (q x) eqn:Eq; destruct (r x) eqn:Er;
    simpl; try lia.
  - rewrite (Hd x Ep) in Eq. discriminate.
  - rewrite (Hd x Ep) in Eq. discriminate.
  - rewrite (Hp x Ep) in Er. discriminate.
  - rewrite (Hq x Eq) in Er. discriminate.
Qed.

(** Ranks by order of value, ties by position: a strictly larger value has
    a strictly larger rank. *)
Lemma rank_first_increasing (l : list Q) (i j : nat) (v w ri rj : Q) :
  nth_error l i = Some v -> nth_error l j = Some w ->
  nth_error (rank_first l) i = Some ri ->
  nth_error (rank_first l) j = Some rj ->
  v < w -> ri < rj.
Proof.
  intros Hi Hj Hri Hrj Hlt. unfold rank_first in *.
  destruct (rank_first_from_nth [] l l i v Hi) as (n & En & Hn).
  destruct (rank_first_from_nth [] l l j w Hj) as (n' & En' & Hn').
  rewrite En in Hri. rewrite En' in Hrj.
  injection Hri as <-. injection Hrj as <-.
  rewrite <- Zlt_Qlt. apply inj_lt.
  pose proof (filter_count_prefix (Qeq_bool v) l i v Hi
                (proj2 (Qeq_bool_iff v v) (Qeq_refl v))) as H1.
  pose proof (filter_count_disjoint (Qeq_bool v) (fun u => Qlt_bool u v)
                (fun u => Qlt_bool u w) l) as H2.
  simpl in Hn, Hn'. rewrite Hn, Hn'.
  assert (H3 : (length (filter (Qeq_bool v) l)
                + length (filter (fun u => Qlt_bool u v) l)
                <= length (filter (fun u => Qlt_bool u w) l))%nat).
  { apply H2.
    - intros x Hx. apply Qeq_bool_iff in Hx. apply Qlt_bool_iff. lra.
    - intros x Hx. apply Qlt_bool_iff in Hx. apply Qlt_bool_iff. lra.
    - intros x Hx. apply Qeq_bool_iff in Hx. apply Qlt_bool_false_iff. lra. }
  lia.
Qed.

(** ** From columns to rows *)

(** The score cell of the row at a position is the score of the series
    cell at that position. *)
Lemma column_scores {S : Type} (series : list (option Q)) (ascending : bool)
    (rows : list S) (get : S -> option Z) :
  rfm_score series ascending = Ok (map get rows) ->
  exists bins il,
    length bins = 6%nat /\
    forall i s, nth_error rows i = Some s ->
      exists cell,
        nth_error series i = Some cell /\
        get s = cell_score bins (score_labels ascending) il cell /\
        forall q, cell = Some q ->
          (if il then hd 0 bins <= q else hd 0 bins < q) /\
          exists b, In b bins /\ q <= b.
Proof.
  intros H.
  destruct (rfm_score_cells series ascending _ H) as (bins & il & E & Hb & Hs).
  exists bins, il. split; [exact Hb|]. intros i s Hi.
  assert (Hg : nth_error (map get rows) i = Some (get s)).
  { rewrite nth_error_map, Hi. reflexivity. }
  rewrite E, nth_error_map in Hg.
  destruct (nth_error series i) as [cell|] eqn:Ec; [|discriminate].
  cbn [option_map] in Hg. injection Hg as Hg.
  exists cell. split; [reflexivity|]. split; [now symmetry|].
  intros q ->. apply Hs. now apply nth_error_In in Ec.
Qed.

Lemma nth_error_map_Some {A B : Type} (f : A -> B) (l : list A) (i : nat)
    (b : B) :
  nth_error (map f l) i = Some b ->
  exists a, nth_error l i = Some a /\ b = f a.
Proof.
  rewrite nth_error_map. destruct (nth_error l i) as [a|]; [|discriminate].
  intros H. injection H as <-. now exists a.
Qed.

(** Two rows of a scored column, compared through their series cells. *)
Lemma column_monotone {S : Type} (series : list (option Q))
    (ascending : bool) (rows : list S) (get : S -> option Z)
    (i j : nat) (sa sb : S) (q q' : Q) :
  rfm_score series ascending = Ok (map get rows) ->
  nth_error rows i = Some sa -> nth_error rows j = Some sb ->
  nth_error series i = Some (Some q) ->
  nth_error series j = Some (Some q') ->
  q <= q' ->
  exists z z', get sa = Some z /\ get sb = Some z' /\
               if ascending then (z' <= z)%Z else (z <= z')%Z.
Proof.
  intros H Hi Hj Hq Hq' Hle.
  destruct (column_scores series ascending rows get H)
    as (bins & il & Hb & Hrows).
  destruct (Hrows i sa Hi) as (c & Ec & Ea & Ha).
  destruct (Hrows j sb Hj) as (c' & Ec' & Eb & Hb').
  rewrite Hq in Ec. injection Ec as <-.
  rewrite Hq' in Ec'. injection Ec' as <-.
  destruct (Ha q eq_refl) as [Hlow Hhigh].
  destruct (Hb' q' eq_refl) as [Hlow' Hhigh'].
  destruct (score_labels_shape ascending) as [Hl Hlen].
  destruct (cell_score_assigned bins (score_labels ascending) il q Hl
              ltac:(now rewrite Hb, Hlen) Hlow Hhigh) as [z Ez].
  destruct (cell_score_assigned bins (score_labels ascending) il q' Hl
              ltac:(now rewrite Hb, Hlen) Hlow' Hhigh') as [z' Ez'].
  exists z, z'. rewrite Ea, Eb. repeat split; try assumption.
  exact (cell_score_monotone bins ascending il q q' z z' Hb Hlow Hhigh' Hle
           Ez Ez').
Qed.

(** ** No score is missing *)




(** X14: in the customer table the scores follow the metrics.  Of two
    customers, the one with the larger recency never has the higher R, the
    one with the strictly larger frequency never has the lower F, and the
    one with the strictly larger monetary value never has the lower M. *)
Theorem scores_follow_metrics (df : dataframe) (t : list rfm_row) :
  rfm df = Ok t ->
  forall a b, In a t -> In b t ->
    ((Recency a <= Recency b)%Z -> (R b <= R a)%Z) /\
    ((Frequency a < Frequency b)%Z -> (F a <= F b)%Z) /\
    (Monetary a < Monetary b -> (M a <= M b)%Z).
Proof.
  intros Et a b Ha Hb.
  destruct (rfm_rows df t a Et) as (ss & Ess & HA).
  destruct (rfm_rows df t b Et) as (ss' & Ess' & HB).
  assert (ss' = ss) by congruence. subst ss'.
  apply HA in Ha. apply HB in Hb. clear HA HB.
  destruct Ha as (sa & Hsa & ->). destruct Hb as (sb & Hsb & ->).
  destruct (rfm_scored_columns df ss Ess) as (Em & ER & EF & EM).
  apply In_nth_error in Hsa, Hsb.
  destruct Hsa as [i Hi]. destruct Hsb as [j Hj].
  assert (Hma : nth_error (rfm_agg df) i = Some (metrics sa)).
  { rewrite <- Em, nth_error_map, Hi. reflexivity. }
  assert (Hmb : nth_error (rfm_agg df) j = Some (metrics sb)).
  { rewrite <- Em, nth_error_map, Hj. reflexivity. }
  assert (Hrec : forall s k, nth_error (rfm_agg df) k = Some s ->
                   exists n, agg_Recency s = Some n).
  { intros s k Hk. apply nth_error_In in Hk.
    destruct (rfm_agg_row_inv df s Hk) as (g & Hg & Hincl & _ & Erec & _).
    destruct (recency_of_group df g Hg Hincl) as (n & En & _).
    exists n. congruence. }
  destruct (Hrec _ _ Hma) as [na Ena]. destruct (Hrec _ _ Hmb) as [nb Enb].
  split; [|split].
  - (* Recency and R *)
    cbn [fill_and_segment Recency R]. rewrite Ena, Enb. cbn [fillna].
    intros Hle.
    destruct (column_monotone _ true ss R_score i j sa sb
                (inject_Z na) (inject_Z nb) ER Hi Hj) as (z & z' & -> & -> & H).
    + rewrite nth_error_map, Hma. cbn [option_map]. now rewrite Ena.
    + rewrite nth_error_map, Hmb. cbn [option_map]. now rewrite Enb.
    + now rewrite <- Zle_Qle.
    + exact H.
  - (* Frequency and F *)
    cbn [fill_and_segment Frequency F]. intros Hlt.
    set (vals := map (fun a => inject_Z (agg_Frequency a)) (rfm_agg df)) in *.
    assert (Hva : nth_error vals i = Some (inject_Z (agg_Frequency sa))).
    { unfold vals. rewrite nth_error_map, Hma. reflexivity. }
    assert (Hvb : nth_error vals j = Some (inject_Z (agg_Frequency sb))).
    { unfold vals. rewrite nth_error_map, Hmb. reflexivity. }
    destruct (nth_error (rank_first vals) i) as [ri|] eqn:Eri.
    2:{ apply nth_error_None in Eri. rewrite rank_first_length in Eri.
        apply nth_error_None in Eri. congruence. }
    destruct (nth_error (rank_first vals) j) as [rj|] eqn:Erj.
    2:{ apply nth_error_None in Erj. rewrite rank_first_length in Erj.
        apply nth_error_None in Erj. congruence. }
    assert (Hr : ri < rj).
    { apply (rank_first_increasing vals i j _ _ ri rj Hva Hvb Eri Erj).
      now rewrite <- Zlt_Qlt. }
    destruct (column_monotone _ false ss F_score i j sa sb ri rj EF Hi Hj)
      as (z & z' & -> & -> & H).
    + rewrite nth_error_map, Eri. reflexivity.
    + rewrite nth_error_map, Erj. reflexivity.
    + lra.
    + exact H.
  - (* Monetary and M *)
    cbn [fill_and_segment Monetary M]. intros Hlt.
    set (vals := map agg_Monetary (rfm_agg df)) in *.
    assert (Hva : nth_error vals i = Some (agg_Monetary sa)).
    { unfold vals. rewrite nth_error_map, Hma. reflexivity. }
    assert (Hvb : nth_error vals j = Some (agg_Monetary sb)).
    { unfold vals. rewrite nth_error_map, Hmb. reflexivity. }
    destruct (nth_error (rank_first vals) i) as [ri|] eqn:Eri.
    2:{ apply nth_error_None in Eri. rewrite rank_first_length in Eri.
        apply nth_error_None in Eri. congruence. }
    destruct (nth_error (rank_first vals) j) as [rj|] eqn:Erj.
    2:{ apply nth_error_None in Erj. rewrite rank_first_length in Erj.
        apply nth_error_None in Erj. congruence. }
    assert (Hr : ri < rj).
    { exact (rank_first_increasing vals i j _ _ ri rj Hva Hvb Eri Erj Hlt). }
    destruct (column_monotone _ false ss M_score i j sa sb ri rj EM Hi Hj)
      as (z & z' & -> & -> & H).
    + rewrite nth_error_map, Eri. reflexivity.
    + rewrite nth_error_map, Erj. reflexivity.
    + lra.
    + exact H.
Qed.

Lemma scores_follow_metrics_witness :
  exists t, rfm df_shop = Ok t /\
    forall a b, In a t -> In b t ->
      ((Recency a <= Recency b)%Z -> (R b <= R a)%Z).
Proof.
  destruct (rfm df_shop) as [t|e] eqn:E.
  - exists t. split; [reflexivity|]. intros a b Ha Hb.
    exact (proj1 (scores_follow_metrics df_shop t E a b Ha Hb)).
  - exfalso. vm_compute in E. discriminate.
Defined.

(* ------------------------------------------------------------------ *)
(** * A series with a single value *)

Lemma quantile_grid : Forall (fun q => 0 <= q /\ q <= 1) (linspace 0 1 6).
Proof.
  unfold linspace. cbn [seq map].
  repeat constructor; unfold Qle; simpl; lia.
Qed.

Lemma nth_constant (s : list Q) (v : Q) (k : nat) :
  (forall y, In y s -> y == v) -> (k < length s)%nat -> nth k s 0 == v.
Proof.
  intros H Hk. apply H. now apply nth_In.
Qed.

Lemma quantile_constant (vals : list Q) (v q : Q) :
  vals <> [] -> (forall y, In y vals -> y == v) -> 0 <= q -> q <= 1 ->
  quantile vals q == v.
Proof.
  intros Hne Hall Hq0 Hq1. unfold quantile.
  set (s := sort_values Qle_bool vals).
  assert (Hs : forall y, In y s -> y == v).
  { intros y Hy. apply Hall. now apply sort_values_In in Hy. }
  assert (Hlen : (1 <= length s)%nat).
  { unfold s. rewrite sort_values_length.
    destruct vals; [congruence | simpl; lia]. }
  set (n1 := (length s - 1)%nat).
  set (h := q * inject_Z (Z.of_nat n1)).
  assert (Hn1 : 0 <= inject_Z (Z.of_nat n1)).
  { change 0 with (inject_Z 0). rewrite <- Zle_Qle. lia. }
  assert (Hh0 : 0 <= h) by (unfold h; nra).
  assert (Hh1 : h <= inject_Z (Z.of_nat n1)) by (unfold h; nra).
  assert (Hlo : (Z.to_nat (Qfloor h) <= n1)%nat).
  { apply Qfloor_resp_le in Hh1. rewrite Qfloor_Z in Hh1. lia. }
  rewrite (nth_constant s v (Z.to_nat (Qfloor h)) Hs) by (unfold n1 in *; lia).
  rewrite (nth_constant s v (Nat.min (Z.to_nat (Qfloor h) + 1) n1) Hs)
    by (unfold n1 in *; lia).
  ring.
Qed.

Lemma unique_constant_Q (l : list Q) (v : Q) :
  (forall y, In y l -> y == v) -> (length (unique Qeq_bool l) <= 1)%nat.
Proof.
  intros H. destruct l as [|x r]; simpl; [lia|].
  rewrite filter_none; [simpl; lia|].
  intros y Hy. apply unique_incl in Hy.
  apply negb_false_iff, Qeq_bool_iff.
  rewrite (H x) by now left. rewrite (H y) by now right. reflexivity.
Qed.

(** On a series whose values are all equal the quantile attempt fails. *)
Lemma qcut_constant_raises (series : list (option Q)) (ascending : bool)
    (v : Q) :
  dropna series <> [] -> (forall q, In (Some q) series -> q == v) ->
  qcut series 5 (score_labels ascending) dup_drop = Raise ValueError.
Proof.
  intros Hne Hall. apply qcut_raises_iff; [assumption|].
  assert (H : (length (unique Qeq_bool
                 (map (quantile (dropna series)) (linspace 0 1 6))) <= 1)%nat).
  { apply (unique_constant_Q _ v). intros y Hy. apply in_map_iff in Hy.
    destruct Hy as (q & <- & Hq).
    pose proof quantile_grid as Hg. rewrite Forall_forall in Hg.
    destruct (Hg q Hq). apply quantile_constant; try assumption.
    intros y Hy. apply Hall. now apply In_dropna. }
  lia.
Qed.

Lemma fold_Qmin'_constant (r : list Q) (x v : Q) :
  x == v -> (forall y, In y r -> y == v) -> fold_left Qmin' r x == v.
Proof.
  revert x. induction r as [|y r IH]; intros x Hx Hall; simpl; [assumption|].
  apply IH; [|intros; apply Hall; now right].
  unfold Qmin'. destruct (Qle_bool x y); [assumption|]. apply Hall. now left.
Qed.

Lemma fold_Qmax'_constant (r : list Q) (x v : Q) :
  x == v -> (forall y, In y r -> y == v) -> fold_left Qmax' r x == v.
Proof.
  revert x. induction r as [|y r IH]; intros x Hx Hall; simpl; [assumption|].
  apply IH; [|intros; apply Hall; now right].
  unfold Qmax'. destruct (Qle_bool x y); [|assumption]. apply Hall. now left.
Qed.

Lemma widen_same (a b : Q) :
  a == b ->
  (if negb (Qeq_bool a 0) then (1 # 1000) * Qabs a else 1 # 1000)
  == (if negb (Qeq_bool b 0) then (1 # 1000) * Qabs b else 1 # 1000).
Proof.
  intros E.
  destruct (Qeq_bool a 0) eqn:Ea; destruct (Qeq_bool b 0) eqn:Eb; simpl.
  - reflexivity.
  - exfalso. apply Qeq_bool_iff in Ea. apply Qeq_bool_false_iff in Eb.
    apply Eb. now rewrite <- E.
  - exfalso. apply Qeq_bool_iff in Eb. apply Qeq_bool_false_iff in Ea.
    apply Ea. now rewrite E.
  - now rewrite E.
Qed.

(** The midpoint of six equally spaced edges lies in the third bin. *)
Lemma searchsorted_left_midpoint (a b q : Q) :
  a < b -> q + q == a + b -> searchsorted_left (linspace a b 6) q = 3%nat.
Proof.
  intros Hab Hq. unfold linspace. cbn [seq map searchsorted_left].
  change (inject_Z (Z.of_nat (6 - 1))) with 5.
  change (inject_Z (Z.of_nat 0)) with 0.
  change (inject_Z (Z.of_nat 1)) with 1.
  change (inject_Z (Z.of_nat 2)) with 2.
  change (inject_Z (Z.of_nat 3)) with 3.
  set (step := (b - a) / 5).
  assert (Hs : 5 * step == b - a) by (unfold step; field).
  replace (Qlt_bool (a + 0 * step) q) with true
    by (symmetry; apply Qlt_bool_iff; lra).
  replace (Qlt_bool (a + 1 * step) q) with true
    by (symmetry; apply Qlt_bool_iff; lra).
  replace (Qlt_bool (a + 2 * step) q) with true
    by (symmetry; apply Qlt_bool_iff; lra).
  replace (Qlt_bool (a + 3 * step) q) with false
    by (symmetry; apply Qlt_bool_false_iff; lra).
  reflexivity.
Qed.

(** On such a series the fallback puts every value in the middle bin. *)
Lemma cut_constant (series : list (option Q)) (ascending : bool) (v : Q) :
  dropna series <> [] -> (forall q, In (Some q) series -> q == v) ->
  cut series 5 (score_labels ascending)
  = Ok (map (option_map (fun _ => 3%Z)) series).
Proof.
  intros Hne Hall.
  destruct (cut_total series ascending Hne) as [r Er]. rewrite Er. f_equal.
  unfold cut in Er.
  destruct (nbins_to_bins series 5) as [bins|] eqn:Eb; [|discriminate].
  cbn [bind] in Er.
  destruct (nbins_to_bins_ok series 5 Hne ltac:(lia)) as (bins' & Eb' & Hb & _).
  assert (bins' = bins) by congruence. subst bins'.
  destruct (score_labels_shape ascending) as [Hl Hlen].
  rewrite (bins_to_cuts_cells _ _ _ _ _ _ Er Hl ltac:(now rewrite Hb, Hlen)).
  apply map_ext_in. intros [q|] Hq; [|reflexivity].
  (* the edges *)
  unfold nbins_to_bins in Eb. cbn [Nat.ltb Nat.leb] in Eb.
  destruct (dropna series) as [|x xs] eqn:Ed; [congruence|].
  assert (Hx : forall y, In y (x :: xs) -> y == v).
  { intros y Hy. apply Hall. apply In_dropna. now rewrite Ed. }
  pose proof (fold_Qmin'_constant xs x v (Hx x (or_introl eq_refl))
                (fun y Hy => Hx y (or_intror Hy))) as Hmn.
  pose proof (fold_Qmax'_constant xs x v (Hx x (or_introl eq_refl))
                (fun y Hy => Hx y (or_intror Hy))) as Hmx.
  set (mn := fold_left Qmin' xs x) in *. set (mx := fold_left Qmax' xs x) in *.
  replace (Qeq_bool mn mx) with true in Eb
    by (symmetry; apply Qeq_bool_iff; now rewrite Hmn, Hmx).
  injection Eb as <-.
  pose proof (widen_positive mn) as Hw.
  pose proof (widen_same mn mx ltac:(now rewrite Hmn, Hmx)) as Hsame.
  set (e1 := if negb (Qeq_bool mn 0) then (1 # 1000) * Qabs mn else 1 # 1000)
    in *.
  set (e2 := if negb (Qeq_bool mx 0) then (1 # 1000) * Qabs mx else 1 # 1000)
    in *.
  pose proof (Hall q Hq) as Hqv.
  unfold cell_score. cbn [andb].
  rewrite (searchsorted_left_midpoint (mn - e1) (mx + e2) q)
    by (try lra; rewrite Hqv; lra).
  rewrite linspace_length. now destruct ascending.
Qed.

(** X15: when all the values of a series are equal (a single customer, or
    customers that all share the metric), the quantile attempt fails, the
    equal-width fallback is used, and every value gets the middle score 3,
    whichever way the labels run. *)
Theorem rfm_score_constant_series
    (series : list (option Q)) (ascending : bool) (v : Q) :
  dropna series <> [] -> (forall q, In (Some q) series -> q == v) ->
  qcut series 5 (score_labels ascending) dup_drop = Raise ValueError /\
  rfm_score series ascending = Ok (map (option_map (fun _ => 3%Z)) series).
Proof.
  intros Hne Hall.
  pose proof (qcut_constant_raises series ascending v Hne Hall) as Hq.
  split; [exact Hq|].
  unfold rfm_score, try_except_ValueError. rewrite Hq.
  now apply (cut_constant series ascending v).
Qed.

Lemma rfm_score_constant_series_witness :
  rfm_score [Some 7; None; Some 7] false = Ok [Some 3; None; Some 3]%Z.
Proof.
  apply (rfm_score_constant_series [Some 7; None; Some 7] false 7).
  - discriminate.
  - intros q [H|[H|[H|[]]]]; try discriminate; injection H as <-;
      reflexivity.
Defined.

(** ** A frame with one customer *)

Lemma rfm_agg_single (df : dataframe) (c : string) :
  df <> [] -> (forall r, In r df -> Customer r = c) ->
  rfm_agg df =
  [ {| agg_Customer := c;
       agg_Recency := recency_of (reference_date df) (map Sale_Date df);
       agg_Frequency := Z.of_nat (length df);
       agg_Monetary := total_sales df |} ].
Proof.
  intros Hne Hc. unfold rfm_agg, groupby, total_sales.
  destruct df as [|r0 df]; [congruence|].
  assert (Ekeys : unique String.eqb (map Customer (r0 :: df)) = [c]).
  { simpl map. rewrite (Hc r0) by now left.
    apply unique_constant. intros y Hy. apply in_map_iff in Hy.
    destruct Hy as (r & <- & Hr). apply Hc. now right. }
  rewrite Ekeys. cbn [sort_values insert map fst snd].
  rewrite filter_all; [reflexivity|].
  intros r Hr. rewrite (Hc r Hr). apply String.eqb_refl.
Qed.

Lemma recency_of_whole_frame (df : dataframe) :
  df <> [] ->
  recency_of (reference_date df) (map Sale_Date df) = Some 1%Z.
Proof.
  intros Hne.
  assert (Hd : map Sale_Date df <> [])
    by (destruct df; [congruence | discriminate]).
  destruct (ts_max_some _ Hd) as (latest & E & _).
  unfold recency_of, reference_date. rewrite E. cbn [option_map].
  unfold days, Timedelta_days. f_equal.
  replace (latest + 1 * ns_per_day - latest)%Z with (1 * ns_per_day)%Z by lia.
  apply Z.div_mul. unfold ns_per_day. lia.
Qed.

Lemma rank_first_single (x : Q) : rank_first [x] = [1].
Proof.
  unfold rank_first. cbn [rank_first_from filter].
  replace (Qlt_bool x x) with false
    by (symmetry; apply Qlt_bool_false_iff; lra).
  reflexivity.
Qed.

(** X16: a frame whose sales all belong to one customer gives a customer
    table of one row: recency 1, the number of sales as Frequency, the
    total sales as Monetary, the scores R = F = M = 3 (from the equal-width
    fallback), and the segment "Occasional". *)
Theorem single_customer_table (df : dataframe) (c : string) :
  df <> [] -> (forall r, In r df -> Customer r = c) ->
  rfm df =
  Ok [ {| rfm_Customer := c;
          Recency := 1;
          Frequency := Z.of_nat (length df);
          Monetary := total_sales df;
          R := 3; F := 3; M := 3;
          Segment := "Occasional" |} ].
Proof.
  intros Hne Hc. unfold rfm, rfm_scored.
  rewrite (rfm_agg_single df c Hne Hc), (recency_of_whole_frame df Hne).
  cbn [map option_map agg_Recency agg_Frequency agg_Monetary].
  rewrite !rank_first_single. cbn [map].
  assert (Hone : forall (q : Q) (ascending : bool),
             rfm_score [Some q] ascending = Ok [Some 3%Z]).
  { intros q ascending. unfold rfm_score, try_except_ValueError.
    rewrite (qcut_constant_raises [Some q] ascending q).
    - apply (cut_constant [Some q] ascending q); [discriminate|].
      intros q' [H|[]]. injection H as <-. reflexivity.
    - discriminate.
    - intros q' [H|[]]. injection H as <-. reflexivity. }
  rewrite !Hone. reflexivity.
Qed.

Lemma single_customer_table_witness :
  exists row, rfm [sample_sale 19724 1 "Ana" "Soap" 40] = Ok [row] /\
              R row = 3%Z /\ Segment row = "Occasional"%string.
Proof.
  eexists. split.
  - apply (single_customer_table [sample_sale 19724 1 "Ana" "Soap" 40]
             "Ana"%string).
    + discriminate.
    + intros r [<-|[]]. reflexivity.
  - split; reflexivity.
Defined.

(* ------------------------------------------------------------------ *)
(** * Ranks are distinct *)

Lemma filter_count_total {A : Type} (p q : A -> bool) (l : list A) :
  (forall x, p x = true -> q x = false) ->
  (length (filter p l) + length (filter q l) <= length l)%nat.
Proof.
  intros Hd. induction l as [|x l IH]; simpl; [lia|].
  destruct (p x) eqn:Ep; destruct (q x) eqn:Eq; simpl; try lia.
  rewrite (Hd x Ep) in Eq. discriminate.
Qed.

Lemma rank_first_range (l : list Q) (i : nat) (v : Q) :
  nth_error l i = Some v ->
  exists k : nat,
    nth_error (rank_first l) i = Some (inject_Z (Z.of_nat k)) /\
    (1 <= k <= length l)%nat.
Proof.
  intros Hi. unfold rank_first.
  destruct (rank_first_from_nth [] l l i v Hi) as (n & En & Hn).
  exists n. split; [exact En|]. simpl in Hn.
  pose proof (filter_count_prefix (Qeq_bool v) l i v Hi
                (proj2 (Qeq_bool_iff v v) (Qeq_refl v))) as H1.
  pose proof (filter_count_total (Qeq_bool v) (fun u => Qlt_bool u v) l) as H2.
  assert ((length (filter (Qeq_bool v) l)
           + length (filter (fun u => Qlt_bool u v) l) <= length l)%nat).
  { apply H2. intros x Hx. apply Qeq_bool_iff in Hx.
    apply Qlt_bool_false_iff. lra. }
  lia.
Qed.

Lemma rank_first_tie (l : list Q) (i j : nat) (v w ri rj : Q) :
  nth_error l i = Some v -> nth_error l j = Some w ->
  nth_error (rank_first l) i = Some ri ->
  nth_error (rank_first l) j = Some rj ->
  v == w -> (i < j)%nat -> ri < rj.
Proof.
  intros Hi Hj Hri Hrj Heq Hij. unfold rank_first in *.
  destruct (rank_first_from_nth [] l l i v Hi) as (n & En & Hn).
  destruct (rank_first_from_nth [] l l j w Hj) as (n' & En' & Hn').
  rewrite En in Hri. rewrite En' in Hrj.
  injection Hri as <-. injection Hrj as <-.
  rewrite <- Zlt_Qlt. apply inj_lt. simpl in Hn, Hn'. rewrite Hn, Hn'.
  assert (E1 : filter (fun u => Qlt_bool u v) l
               = filter (fun u => Qlt_bool u w) l).
  { apply filter_ext. intros u.
    destruct (Qlt_bool u w) eqn:E.
    - apply Qlt_bool_iff in E. apply Qlt_bool_iff. lra.
    - apply Qlt_bool_false_iff in E. apply Qlt_bool_false_iff. lra. }
  assert (E2 : filter (Qeq_bool w) (firstn j l)
               = filter (Qeq_bool v) (firstn j l)).
  { apply filter_ext. intros u.
    destruct (Qeq_bool v u) eqn:E.
    - apply Qeq_bool_iff in E. apply Qeq_bool_iff. now rewrite <- Heq.
    - apply Qeq_bool_false_iff in E. apply Qeq_bool_false_iff.
      now rewrite <- Heq. }
  rewrite E1, E2.
  assert (Hpre : nth_error (firstn j l) i = Some v).
  { rewrite nth_error_firstn.
    replace (i <? j)%nat with true by (symmetry; apply Nat.ltb_lt; lia).
    exact Hi. }
  pose proof (filter_count_prefix (Qeq_bool v) (firstn j l) i v Hpre
                (proj2 (Qeq_bool_iff v v) (Qeq_refl v))) as H.
  rewrite firstn_firstn, Nat.min_l in H by lia. lia.
Qed.

(** X17: [rank(method="first")] gives the [n] values of a column the ranks
    1, ..., n, each exactly once, whatever ties the column has: the series
    handed to [rfm_score] for Frequency and Monetary has no ties, and a
    strictly larger value has a strictly larger rank. *)
Theorem rank_first_is_a_ranking (l : list Q) :
  length (rank_first l) = length l /\
  NoDup (rank_first l) /\
  (forall r, In r (rank_first l) ->
     exists k : nat, r = inject_Z (Z.of_nat k) /\ (1 <= k <= length l)%nat) /\
  (forall i j v w ri rj,
     nth_error l i = Some v -> nth_error l j = Some w ->
     nth_error (rank_first l) i = Some ri ->
     nth_error (rank_first l) j = Some rj ->
     v < w -> ri < rj).
Proof.
  split; [apply rank_first_length|]. split; [|split].
  - apply NoDup_nth_error. intros i j Hi E.
    rewrite rank_first_length in Hi.
    destruct (nth_error l i) as [v|] eqn:Ei;
      [|apply nth_error_None in Ei; lia].
    destruct (rank_first_range l i v Ei) as (k & Ek & _).
    rewrite Ek in E. symmetry in E.
    destruct (nth_error l j) as [w|] eqn:Ej.
    2:{ apply nth_error_None in Ej. rewrite <- rank_first_length in Ej.
        apply nth_error_None in Ej. congruence. }
    destruct (Nat.lt_trichotomy i j) as [Hlt|[Heq|Hgt]]; [|assumption|];
      exfalso.
    + destruct (Q_dec v w) as [[H|H]|H].
      * pose proof (rank_first_increasing l i j v w _ _ Ei Ej Ek E H). lra.
      * pose proof (rank_first_increasing l j i w v _ _ Ej Ei E Ek H). lra.
      * pose proof (rank_first_tie l i j v w _ _ Ei Ej Ek E H Hlt). lra.
    + destruct (Q_dec v w) as [[H|H]|H].
      * pose proof (rank_first_increasing l i j v w _ _ Ei Ej Ek E H). lra.
      * pose proof (rank_first_increasing l j i w v _ _ Ej Ei E Ek H). lra.
      * pose proof (rank_first_tie l j i w v _ _ Ej Ei E Ek
                      ltac:(now symmetry) Hgt). lra.
  - intros r Hr. apply In_nth_error in Hr. destruct Hr as [i Hi].
    destruct (nth_error l i) as [v|] eqn:Ei.
    + destruct (rank_first_range l i v Ei) as (k & Ek & Hk).
      exists k. split; [congruence | assumption].
    + apply nth_error_None in Ei. rewrite <- rank_first_length in Ei.
      apply nth_error_None in Ei. congruence.
  - intros i j v w ri rj. apply rank_first_increasing.
Qed.
